(** * The [eth] wire protocol of go-quai: message registry, origin codec,
      packet catalogue and eth/66 envelopes.

    Shallow embedding of [eth/protocols/eth/protocol.go].

    Conventions.
    - Go's [uint], [uint32], [uint64] and [byte] constants are [Z]; a
      [uint64] value [n] is in range when [0 <= n < 2^64].
    - [common.Hash] is the array type [[32]byte]: a [list byte] whose
      length is 32 for every value Go can build.
    - A Go pointer that the code dereferences is an [option]; [None] is
      [nil], and a dereference of [nil] makes the function return [None]
      (the run-time panic).
    - The types of package [core/types] and [core/forkid] are parameters. *)

From Stdlib Require Import ZArith List String Bool Lia.
From Stdlib.Strings Require Import Byte.
From stdpp Require Import base option list strings gmap.

Import ListNotations.
Local Open Scope Z_scope.

(** ** Message registry *)

Definition ETH65 : Z := 65.
Definition ETH66 : Z := 66.

Definition c_ProtocolName : string := "quai".

(** [var ProtocolVersions = []uint{ETH66, ETH65}] (first is primary). *)
Definition ProtocolVersions : list Z := [ETH66; ETH65].

(** [var protocolLengths = map[uint]uint64{ETH66: 21, ETH65: 19}] *)
Definition protocolLengths : gmap Z Z := <[ETH66 := 21]> (<[ETH65 := 19]> ∅).

Definition maxMessageSize : Z := 10 * 1024 * 1024.

Definition StatusMsg : Z := 0x00.
Definition NewBlockHashesMsg : Z := 0x01.
Definition TransactionsMsg : Z := 0x02.
Definition GetBlockHeadersMsg : Z := 0x03.
Definition BlockHeadersMsg : Z := 0x04.
Definition GetBlockBodiesMsg : Z := 0x05.
Definition BlockBodiesMsg : Z := 0x06.
Definition NewBlockMsg : Z := 0x07.
Definition GetNodeDataMsg : Z := 0x0d.
Definition NodeDataMsg : Z := 0x0e.
Definition GetReceiptsMsg : Z := 0x0f.
Definition ReceiptsMsg : Z := 0x10.
Definition NewPooledTransactionHashesMsg : Z := 0x08.
Definition GetPooledTransactionsMsg : Z := 0x09.
Definition PooledTransactionsMsg : Z := 0x0a.
Definition GetBlockMsg : Z := 0x0b.
Definition PendingEtxsMsg : Z := 0x11.
Definition GetOnePendingEtxsMsg : Z := 0x12.
Definition PendingEtxsRollupMsg : Z := 0x13.
Definition GetOnePendingEtxsRollupMsg : Z := 0x14.

(** The constants of the [const ( ... )] block, in declaration order. *)
Definition message_codes : list Z :=
  [ StatusMsg; NewBlockHashesMsg; TransactionsMsg; GetBlockHeadersMsg;
    BlockHeadersMsg; GetBlockBodiesMsg; BlockBodiesMsg; NewBlockMsg;
    GetNodeDataMsg; NodeDataMsg; GetReceiptsMsg; ReceiptsMsg;
    NewPooledTransactionHashesMsg; GetPooledTransactionsMsg;
    PooledTransactionsMsg; GetBlockMsg; PendingEtxsMsg;
    GetOnePendingEtxsMsg; PendingEtxsRollupMsg; GetOnePendingEtxsRollupMsg ].

(** ** Errors *)

#[global] Instance byte_eq_decision : EqDecision byte := Byte.byte_eq_dec.

(** [common.Hash], the 32-byte array type of package [common]. *)
Definition common_Hash : Type := list byte.

Definition HashLength : Z := 32.

(** [common.Hash{}], the zero value of the array type. *)
Definition zero_Hash : common_Hash := repeat x00 32.

(** Go [error] values; [nil] is [None] of [option error].  An
    [errors.New] value is identified by its message, the two [fmt.Errorf]
    values of this file by their format arguments. *)
Inductive error : Type :=
  | errors_New (msg : string)
  | errBothOrigin (h : common_Hash) (n : Z)
      (* "both origin hash (%x) and number (%d) provided" *)
  | errInvalidOriginSize (size : Z)
      (* "invalid input size %d for origin" *).

#[global] Instance error_eq_decision : EqDecision error.
Proof. solve_decision. Defined.

Definition errNoStatusMsg : error := errors_New "no status message".
Definition errMsgTooLarge : error := errors_New "message too long".
Definition errDecode : error := errors_New "invalid message".
Definition errInvalidMsgCode : error := errors_New "invalid message code".
Definition errProtocolVersionMismatch : error := errors_New "protocol version mismatch".
Definition errNetworkIDMismatch : error := errors_New "network ID mismatch".
Definition errGenesisMismatch : error := errors_New "genesis mismatch".
Definition errForkIDRejected : error := errors_New "fork ID rejected".
Definition errLocationMismatch : error := errors_New "location mismatch".


(** Go's conversions between [byte] and wider unsigned integers. *)
Definition byte_to_Z (b : byte) : Z := Z.of_N (Byte.to_N b).
Definition byte_of_Z (z : Z) : byte :=
  match Byte.of_N (Z.to_N (z mod 256)) with
  | Some b => b
  | None => x00
  end.

(** ** The generic codec, package [rlp] *)

Module rlp.

(** Modelled from the spec: package [rlp] of the repository (the generic
    binary-serialization codec: [rlp.Encode], [rlp.Stream] with its [Kind]
    and [Decode] methods) is not among the sources.  The spec assumes it
    with stable encode/decode semantics for integers and byte strings;
    the definitions below are the recursive-length-prefix rules for those
    two kinds of value, on a top-level stream without an input limit. *)
Inductive Kind : Type := Byte | String | List.

(** Modelled from the spec: the error values of the codec and of package
    [io], identified by their messages. *)
Definition EOF : error := errors_New "EOF".
Definition ErrUnexpectedEOF : error := errors_New "unexpected EOF".
Definition ErrExpectedString : error := errors_New "rlp: expected String or Byte".
Definition ErrCanonInt : error := errors_New "rlp: non-canonical integer format".
Definition ErrCanonSize : error := errors_New "rlp: non-canonical size information".
Definition errUintOverflow : error := errors_New "rlp: uint overflow".
Definition errInputTooLong : error := errors_New "rlp: input too long".
Definition errInputTooShort : error := errors_New "rlp: input too short".

(** Modelled from the spec: the [n] low-order bytes of [i], most
    significant first. *)
Fixpoint be_bytes (n : nat) (i : Z) : list byte :=
  match n with
  | O => []
  | S n' => be_bytes n' (i ≫ 8) ++ [byte_of_Z i]
  end.

(** Modelled from the spec: the big-endian value of a byte string. *)
Definition be_uint (bs : list byte) : Z :=
  fold_left (fun acc b => acc * 256 + byte_to_Z b) bs 0.

(** Modelled from the spec: the number of bytes of the shortest
    big-endian form of [i] (at least one); [fuel] bounds the width. *)
Fixpoint intsize (fuel : nat) (i : Z) : nat :=
  match fuel with
  | O => O
  | S f => if i ≫ 8 =? 0 then 1%nat else S (intsize f (i ≫ 8))
  end.

(** Modelled from the spec: the shortest big-endian form of a [uint64]. *)
Definition putint (i : Z) : list byte := be_bytes (intsize 8 i) i.

(** Modelled from the spec: the generic numeric encoding of a [uint64]:
    zero is the empty string, a value below 128 is its own byte, any
    other value a string of its shortest big-endian form. *)
Definition encode_uint64 (i : Z) : list byte :=
  if i =? 0 then [x80]
  else if i <? 128 then [byte_of_Z i]
  else let s := putint i in byte_of_Z (0x80 + Z.of_nat (length s)) :: s.

(** Modelled from the spec: the header of a string of [size] bytes. *)
Definition encodeStringHeader (size : Z) : list byte :=
  if size <? 56 then [byte_of_Z (0x80 + size)]
  else let ss := putint size in byte_of_Z (0xB7 + Z.of_nat (length ss)) :: ss.

(** Modelled from the spec: the generic fixed-width-bytes encoding of a
    byte array. *)
Definition encode_byteArray (b : list byte) : list byte :=
  match b with
  | [] => [x80]
  | [c] => if byte_to_Z c <=? 0x7F then [c] else [x81; c]
  | _ => encodeStringHeader (Z.of_nat (length b)) ++ b
  end.

(** Modelled from the spec: an [io.Writer] that appends to a buffer and
    never fails. *)
Definition Writer : Type := list byte.

(** Modelled from the spec: [rlp.Encode(w, i)] for [i] of type [uint64]. *)
Definition Encode_uint64 (w : Writer) (i : Z) : Writer * option error :=
  (w ++ encode_uint64 i, None).

(** Modelled from the spec: [rlp.Encode(w, h)] for [h] of type
    [common.Hash]. *)
Definition Encode_Hash (w : Writer) (h : common_Hash) : Writer * option error :=
  (w ++ encode_byteArray h, None).

(** Modelled from the spec: the decoding stream: the input not yet
    consumed, the cached kind, size and error of the value at its head
    ([None] once the cache is rearmed), and the value of a single-byte
    string. *)
Record Stream : Type := mkStream {
  input : list byte;
  kind : option (Kind * Z * option error);
  byteval : byte }.

(** Modelled from the spec: a fresh stream over the bytes [bs]. *)
Definition NewStream (bs : list byte) : Stream :=
  {| input := bs; kind := None; byteval := x00 |}.

(** Modelled from the spec: reads one byte and rearms the cache. *)
Definition readByte (s : Stream) : Stream * Z * option error :=
  match input s with
  | [] => ({| input := []; kind := None; byteval := byteval s |}, 0, Some ErrUnexpectedEOF)
  | b :: r => ({| input := r; kind := None; byteval := byteval s |}, byte_to_Z b, None)
  end.

(** Modelled from the spec: reads [n] bytes; at the end of the input the
    bytes read so far come with [ErrUnexpectedEOF]. *)
Definition readFull (s : Stream) (n : nat) : Stream * list byte * option error :=
  let s' := {| input := drop n (input s); kind := None; byteval := byteval s |} in
  if (length (input s) <? n)%nat then (s', input s, Some ErrUnexpectedEOF)
  else (s', take n (input s), None).

(** Modelled from the spec: reads a big-endian integer of [size] bytes;
    an integer of two or more bytes must not start with a zero byte. *)
Definition readUint (s : Stream) (size : Z) : Stream * Z * option error :=
  if size =? 0 then
    ({| input := input s; kind := None; byteval := byteval s |}, 0, None)
  else if size =? 1 then readByte s
  else
    let '(s', buf, err) := readFull s (Z.to_nat size) in
    match err with
    | Some e => (s', 0, Some e)
    | None =>
        if byte_to_Z (hd x00 buf) =? 0 then (s', 0, Some ErrCanonSize)
        else (s', be_uint buf, None)
    end.

(** Modelled from the spec: reads the header of the next value: a byte
    below [0x80] is a single-byte string, [0x80..0xB7] a string of up to 55
    bytes, [0xB8..0xBF] a longer string whose size follows, [0xC0..0xF7]
    and [0xF8..0xFF] the same for lists. *)
Definition readKind (s : Stream) : Stream * (Kind * Z * option error) :=
  let '(s1, b, err) := readByte s in
  match err with
  | Some _ => (s1, (Byte, 0, Some EOF))
  | None =>
      let s1 := {| input := input s1; kind := kind s1; byteval := x00 |} in
      if b <? 0x80 then
        ({| input := input s1; kind := kind s1; byteval := byte_of_Z b |}, (Byte, 0, None))
      else if b <? 0xB8 then (s1, (String, b - 0x80, None))
      else if b <? 0xC0 then
        let '(s2, size, err) := readUint s1 (b - 0xB7) in
        match err with
        | None => (s2, (String, size, if size <? 56 then Some ErrCanonSize else None))
        | Some e => (s2, (String, size, Some e))
        end
      else if b <? 0xF8 then (s1, (List, b - 0xC0, None))
      else
        let '(s2, size, err) := readUint s1 (b - 0xF7) in
        match err with
        | None => (s2, (List, size, if size <? 56 then Some ErrCanonSize else None))
        | Some e => (s2, (List, size, Some e))
        end
  end.

(** Modelled from the spec: [Stream.Kind], the kind and size of the next
    value, read once and cached until the value is consumed. *)
Definition Stream_Kind (s : Stream) : Stream * (Kind * Z * option error) :=
  match kind s with
  | Some k => (s, k)
  | None =>
      let '(s1, k) := readKind s in
      ({| input := input s1; kind := Some k; byteval := byteval s1 |}, k)
  end.

(** Modelled from the spec: the decoder of an unsigned integer of at most
    64 bits; only the shortest form of a number is accepted. *)
Definition Stream_uint64 (s : Stream) : Stream * Z * option error :=
  let '(s1, (k, size, err)) := Stream_Kind s in
  match err with
  | Some e => (s1, 0, Some e)
  | None =>
      match k with
      | Byte =>
          if byte_to_Z (byteval s1) =? 0 then (s1, 0, Some ErrCanonInt)
          else ({| input := input s1; kind := None; byteval := byteval s1 |},
                byte_to_Z (byteval s1), None)
      | String =>
          if 8 <? size then (s1, 0, Some errUintOverflow)
          else
            let '(s2, v, err) := readUint s1 size in
            match err with
            | Some e =>
                (s2, 0, Some (if decide (e = ErrCanonSize) then ErrCanonInt else e))
            | None =>
                if (0 <? size) && (v <? 128) then (s2, 0, Some ErrCanonSize)
                else (s2, v, None)
            end
      | List => (s1, 0, Some ErrExpectedString)
      end
  end.

(** Modelled from the spec: [s.Decode(&n)] for [n] of type [uint64]; the
    target keeps its value when decoding fails.  The error is the
    stream's own: the wrapper that names the target type is left out. *)
Definition Decode_uint64 (s : Stream) (n : Z) : Stream * Z * option error :=
  let '(s1, v, err) := Stream_uint64 s in
  match err with
  | Some e => (s1, n, Some e)
  | None => (s1, v, None)
  end.

(** Modelled from the spec: [s.Decode(&a)] for [a] a byte array; the bytes
    are read into the array itself, so a short read leaves its prefix
    overwritten.  The error is the stream's own: the wrapper that names
    the target type is left out. *)
Definition Decode_byteArray (s : Stream) (a : list byte) : Stream * list byte * option error :=
  let '(s1, (k, size, err)) := Stream_Kind s in
  match err with
  | Some e => (s1, a, Some e)
  | None =>
      match k with
      | Byte =>
          match a with
          | [] => (s1, a, Some errInputTooLong)
          | [_] => ({| input := input s1; kind := None; byteval := byteval s1 |},
                    [byteval s1], None)
          | _ => (s1, a, Some errInputTooShort)
          end
      | String =>
          if Z.of_nat (length a) <? size then (s1, a, Some errInputTooLong)
          else if size <? Z.of_nat (length a) then (s1, a, Some errInputTooShort)
          else
            let '(s2, buf, err) := readFull s1 (length a) in
            let a' := buf ++ drop (length buf) a in
            match err with
            | Some e => (s2, a', Some e)
            | None =>
                if (size =? 1) && (byte_to_Z (hd x00 a') <? 128)
                then (s2, a', Some ErrCanonSize)
                else (s2, a', None)
            end
      | List => (s1, a, Some ErrExpectedString)
      end
  end.

End rlp.

(** ** The origin selector and its codec *)

(** What [EncodeRLP] and [DecodeRLP] use of package [rlp] and of
    [io.Writer].  A decoder receives the stream and the present contents
    of the variable it decodes into, and returns the stream, the new
    contents of that variable and the error. *)
Class Codec : Type := {
  Writer : Type;
  Stream : Type;
  rlp_Encode_uint64 : Writer -> Z -> Writer * option error;
  rlp_Encode_Hash : Writer -> common_Hash -> Writer * option error;
  Stream_Kind : Stream -> Stream * (rlp.Kind * Z * option error);
  Stream_Decode_Hash : Stream -> common_Hash -> Stream * common_Hash * option error;
  Stream_Decode_uint64 : Stream -> Z -> Stream * Z * option error }.

(** [HashOrNumber] is a combined field for specifying an origin block. *)
Record HashOrNumber : Type := {
  Hash : common_Hash;
  Number : Z }.

Section OriginCodec.
Context {codec : Codec}.

(** [func (hn *HashOrNumber) EncodeRLP(w io.Writer) error] *)
Definition EncodeRLP (hn : HashOrNumber) (w : Writer) : Writer * option error :=
  if decide (Hash hn = zero_Hash) then rlp_Encode_uint64 w (Number hn)
  else if negb (Number hn =? 0) then
    (w, Some (errBothOrigin (Hash hn) (Number hn)))
  else rlp_Encode_Hash w (Hash hn).

(** [func (hn *HashOrNumber) DecodeRLP(s *rlp.Stream) error]; the
    result carries the contents of [*hn] after the call. *)
Definition DecodeRLP (hn : HashOrNumber) (s : Stream)
  : Stream * HashOrNumber * option error :=
  let '(s1, (_, size, err)) := Stream_Kind s in
  match err with
  | Some e => (s1, hn, Some e)
  | None =>
      if size =? 32 then
        let hn1 := {| Hash := Hash hn; Number := 0 |} in
        let '(s2, h, err) := Stream_Decode_Hash s1 (Hash hn1) in
        (s2, {| Hash := h; Number := Number hn1 |}, err)
      else if size <=? 8 then
        let hn1 := {| Hash := zero_Hash; Number := Number hn |} in
        let '(s2, n, err) := Stream_Decode_uint64 s1 (Number hn1) in
        (s2, {| Hash := Hash hn1; Number := n |}, err)
      else (s1, hn, Some (errInvalidOriginSize size))
  end.
End OriginCodec.

(** Modelled from the spec: the codec of package [rlp], writing to a
    buffer. *)
#[global] Instance go_rlp : Codec := {|
  Writer := rlp.Writer;
  Stream := rlp.Stream;
  rlp_Encode_uint64 := rlp.Encode_uint64;
  rlp_Encode_Hash := rlp.Encode_Hash;
  Stream_Kind := rlp.Stream_Kind;
  Stream_Decode_Hash := rlp.Decode_byteArray;
  Stream_Decode_uint64 := rlp.Decode_uint64 |}.

(** ** Packet catalogue *)

(** [for i, x := range l { st = body i x st }], started at index [i]. *)
Fixpoint range_from {A St : Type} (body : nat -> A -> St -> St)
    (i : nat) (l : list A) (st : St) : St :=
  match l with
  | [] => st
  | x :: l' => range_from body (S i) l' (body i x st)
  end.

(** One element of the anonymous struct slice [NewBlockHashesPacket]. *)
Record NewBlockHashesEntry : Type := {
  entry_Hash : common_Hash;
  entry_Number : Z }.

Definition NewBlockHashesPacket : Type := list NewBlockHashesEntry.

(** The loop body of [Unpack]: the assignment
    [hashes[i], numbers[i] = body.Hash, body.Number]. *)
Definition NewBlockHashes_assign (i : nat) (body : NewBlockHashesEntry)
    (st : list common_Hash * list Z) : list common_Hash * list Z :=
  let '(hashes, numbers) := st in
  (<[i := entry_Hash body]> hashes, <[i := entry_Number body]> numbers).

Definition NewBlockHashesPacket_Unpack (p : NewBlockHashesPacket)
  : list common_Hash * list Z :=
  let hashes := replicate (length p) zero_Hash in
  let numbers := replicate (length p) 0 in
  range_from NewBlockHashes_assign 0%nat p (hashes, numbers).

(** [rlp.RawValue] is [[]byte]. *)
Definition rlp_RawValue : Type := list byte.

(** [GetBlockHeadersPacket] represents a block header query. *)
Record GetBlockHeadersPacket : Type := {
  Origin : HashOrNumber;
  Amount : Z;
  Dom : bool;
  Reverse : bool;
  To : Z;
  Skip : Z }.

(** Every eth/66 struct of the file has the same two fields: [RequestId
    uint64] followed by the embedded payload. *)
Record Packet66 (P : Type) : Type := mkPacket66 {
  RequestId : Z;
  Embedded : P }.
Arguments mkPacket66 {P} _ _.
Arguments RequestId {P} _.
Arguments Embedded {P} _.

(** [GetBlockHeadersPacket66] embeds a pointer, [*GetBlockHeadersPacket]. *)
Definition GetBlockHeadersPacket66 : Type := Packet66 (option GetBlockHeadersPacket).

Definition GetBlockBodiesPacket : Type := list common_Hash.
Definition GetBlockBodiesPacket66 : Type := Packet66 GetBlockBodiesPacket.

Definition BlockBodiesRLPPacket : Type := list rlp_RawValue.
Definition BlockBodiesRLPPacket66 : Type := Packet66 BlockBodiesRLPPacket.

Definition GetNodeDataPacket : Type := list common_Hash.
Definition GetNodeDataPacket66 : Type := Packet66 GetNodeDataPacket.

Definition NodeDataPacket : Type := list (list byte).
Definition NodeDataPacket66 : Type := Packet66 NodeDataPacket.

Definition GetReceiptsPacket : Type := list common_Hash.
Definition GetReceiptsPacket66 : Type := Packet66 GetReceiptsPacket.

Definition ReceiptsRLPPacket : Type := list rlp_RawValue.
Definition ReceiptsRLPPacket66 : Type := Packet66 ReceiptsRLPPacket.

Definition NewPooledTransactionHashesPacket : Type := list common_Hash.

Definition GetPooledTransactionsPacket : Type := list common_Hash.
Definition GetPooledTransactionsPacket66 : Type := Packet66 GetPooledTransactionsPacket.

Definition PooledTransactionsRLPPacket : Type := list rlp_RawValue.
Definition PooledTransactionsRLPPacket66 : Type := Packet66 PooledTransactionsRLPPacket.

Record GetBlockPacket : Type := { GetBlock_Hash : common_Hash }.
Definition GetBlockPacket66 : Type := Packet66 GetBlockPacket.

Record GetOnePendingEtxsPacket : Type := { GetOnePendingEtxs_Hash : common_Hash }.
Definition GetOnePendingEtxsPacket66 : Type := Packet66 GetOnePendingEtxsPacket.

Record GetOnePendingEtxsRollupPacket : Type := { GetOnePendingEtxsRollup_Hash : common_Hash }.
Definition GetOnePendingEtxsRollupPacket66 : Type := Packet66 GetOnePendingEtxsRollupPacket.

Section ChainTypes.
(** The types of packages [core/types] and [core/forkid].  [Transaction],
    [Header], [Receipt] and [Block] stand for the pointer types
    [*types.Transaction], [*types.Header], [*types.Receipt] and
    [*types.Block], which this file stores and never dereferences. *)
Variables Transaction Header Receipt Block : Type.
Variables BlockManifest PendingEtxs PendingEtxsRollup forkid_ID : Type.
(** The zero value of [types.BlockManifest]. *)
Variable BlockManifest_zero : BlockManifest.
(** [func (b *Block) SanityCheck() error] *)
Variable Block_SanityCheck : Block -> option error.

Record StatusPacket : Type := {
  ProtocolVersion : Z;
  NetworkID : Z;
  Location : string;
  Entropy : option Z;
  Head : common_Hash;
  Genesis : common_Hash;
  ForkID : forkid_ID }.

Definition TransactionsPacket : Type := list Transaction.

Definition BlockHeadersPacket : Type := list Header.
Definition BlockHeadersPacket66 : Type := Packet66 BlockHeadersPacket.

Record NewBlockPacket : Type := { NewBlock_Block : Block }.

Definition sanityCheck (request : NewBlockPacket) : option error :=
  match Block_SanityCheck (NewBlock_Block request) with
  | Some err => Some err
  | None => None
  end.

(** [BlockBody] represents the data content of a single block. *)
Record BlockBody : Type := {
  Transactions : list Transaction;
  Uncles : list Header;
  ExtTransactions : list Transaction;
  SubManifest : BlockManifest }.

(** [type BlockBodiesPacket []*BlockBody] *)
Definition BlockBodiesPacket : Type := list (option BlockBody).
Definition BlockBodiesPacket66 : Type := Packet66 BlockBodiesPacket.

(** The loop body of [Unpack]: the assignment
    [txset[i], uncleset[i], etxset[i], manifest[i] = body.Transactions, ...];
    the state is [None] once a [nil] body has been dereferenced. *)
Definition BlockBodies_assign (i : nat) (body : option BlockBody)
    (st : option (list (list Transaction) * list (list Header)
                  * list (list Transaction) * list BlockManifest)) :=
  match st, body with
  | Some (txset, uncleset, etxset, manifest), Some b =>
      Some (<[i := Transactions b]> txset, <[i := Uncles b]> uncleset,
            <[i := ExtTransactions b]> etxset, <[i := SubManifest b]> manifest)
  | _, _ => None
  end.

Definition BlockBodiesPacket_Unpack (p : BlockBodiesPacket)
  : option (list (list Transaction) * list (list Header)
            * list (list Transaction) * list BlockManifest) :=
  let txset := replicate (length p) [] in
  let uncleset := replicate (length p) [] in
  let etxset := replicate (length p) [] in
  let manifest := replicate (length p) BlockManifest_zero in
  range_from BlockBodies_assign 0%nat p (Some (txset, uncleset, etxset, manifest)).

Definition ReceiptsPacket : Type := list (list Receipt).
Definition ReceiptsPacket66 : Type := Packet66 ReceiptsPacket.

Definition PooledTransactionsPacket : Type := list Transaction.
Definition PooledTransactionsPacket66 : Type := Packet66 PooledTransactionsPacket.

Record PendingEtxsPacket : Type := { PendingEtxs_field : PendingEtxs }.
Definition PendingEtxsPacket66 : Type := Packet66 PendingEtxsPacket.

Record PendingEtxsRollupPacket : Type := { PendingEtxsRollup_field : PendingEtxsRollup }.
Definition PendingEtxsRollupPacket66 : Type := Packet66 PendingEtxsRollupPacket.
End ChainTypes.

Arguments Transactions {_ _ _} _.
Arguments Uncles {_ _ _} _.
Arguments ExtTransactions {_ _ _} _.
Arguments SubManifest {_ _ _} _.
Arguments BlockBodiesPacket_Unpack {_ _ _} _ _.

(** The payload types of the catalogue: one per message code. *)
Module PacketType.
Inductive t : Type :=
  | StatusPacket | NewBlockHashesPacket | TransactionsPacket
  | GetBlockHeadersPacket | BlockHeadersPacket | GetBlockBodiesPacket
  | BlockBodiesPacket | NewBlockPacket | GetNodeDataPacket | NodeDataPacket
  | GetReceiptsPacket | ReceiptsPacket | NewPooledTransactionHashesPacket
  | GetPooledTransactionsPacket | PooledTransactionsPacket | GetBlockPacket
  | GetOnePendingEtxsPacket | PendingEtxsPacket | PendingEtxsRollupPacket
  | GetOnePendingEtxsRollupPacket.

#[global] Instance eq_decision : EqDecision t.
Proof. solve_decision. Defined.

Definition all : list t :=
  [ StatusPacket; NewBlockHashesPacket; TransactionsPacket;
    GetBlockHeadersPacket; BlockHeadersPacket; GetBlockBodiesPacket;
    BlockBodiesPacket; NewBlockPacket; GetNodeDataPacket; NodeDataPacket;
    GetReceiptsPacket; ReceiptsPacket; NewPooledTransactionHashesPacket;
    GetPooledTransactionsPacket; PooledTransactionsPacket; GetBlockPacket;
    GetOnePendingEtxsPacket; PendingEtxsPacket; PendingEtxsRollupPacket;
    GetOnePendingEtxsRollupPacket ].
End PacketType.

(** The [Name] methods of the file.  Each is declared on an unnamed
    receiver, [func ( *T) Name() string], so its result depends on the type
    alone; [None] marks a type for which the file declares no such method. *)
Definition Name (p : PacketType.t) : option string :=
  match p with
  | PacketType.StatusPacket => Some "Status"
  | PacketType.NewBlockHashesPacket => Some "NewBlockHashes"
  | PacketType.TransactionsPacket => Some "Transactions"
  | PacketType.GetBlockHeadersPacket => Some "GetBlockHeaders"
  | PacketType.BlockHeadersPacket => Some "BlockHeaders"
  | PacketType.GetBlockBodiesPacket => Some "GetBlockBodies"
  | PacketType.BlockBodiesPacket => Some "BlockBodies"
  | PacketType.NewBlockPacket => Some "NewBlock"
  | PacketType.GetNodeDataPacket => Some "GetNodeData"
  | PacketType.NodeDataPacket => Some "NodeData"
  | PacketType.GetReceiptsPacket => Some "GetReceipts"
  | PacketType.ReceiptsPacket => Some "Receipts"
  | PacketType.NewPooledTransactionHashesPacket => Some "NewPooledTransactionHashes"
  | PacketType.GetPooledTransactionsPacket => Some "GetPooledTransactions"
  | PacketType.PooledTransactionsPacket => Some "PooledTransactions"
  | PacketType.GetBlockPacket => Some "GetBlock"
  | PacketType.GetOnePendingEtxsPacket => Some "GetOnePendingEtxs"
  | PacketType.PendingEtxsPacket => Some "PendingEtxs"
  | PacketType.PendingEtxsRollupPacket => Some "PendingEtxsManifest"
  | PacketType.GetOnePendingEtxsRollupPacket => None
  end%string.

(** The [Kind] methods of the file, [func ( *T) Kind() byte]. *)
Definition Kind (p : PacketType.t) : option Z :=
  match p with
  | PacketType.StatusPacket => Some StatusMsg
  | PacketType.NewBlockHashesPacket => Some NewBlockHashesMsg
  | PacketType.TransactionsPacket => Some TransactionsMsg
  | PacketType.GetBlockHeadersPacket => Some GetBlockHeadersMsg
  | PacketType.BlockHeadersPacket => Some BlockHeadersMsg
  | PacketType.GetBlockBodiesPacket => Some GetBlockBodiesMsg
  | PacketType.BlockBodiesPacket => Some BlockBodiesMsg
  | PacketType.NewBlockPacket => Some NewBlockMsg
  | PacketType.GetNodeDataPacket => Some GetNodeDataMsg
  | PacketType.NodeDataPacket => Some NodeDataMsg
  | PacketType.GetReceiptsPacket => Some GetReceiptsMsg
  | PacketType.ReceiptsPacket => Some ReceiptsMsg
  | PacketType.NewPooledTransactionHashesPacket => Some NewPooledTransactionHashesMsg
  | PacketType.GetPooledTransactionsPacket => Some GetPooledTransactionsMsg
  | PacketType.PooledTransactionsPacket => Some PooledTransactionsMsg
  | PacketType.GetBlockPacket => Some GetBlockMsg
  | PacketType.GetOnePendingEtxsPacket => Some GetOnePendingEtxsMsg
  | PacketType.PendingEtxsPacket => Some PendingEtxsMsg
  | PacketType.PendingEtxsRollupPacket => Some PendingEtxsRollupMsg
  | PacketType.GetOnePendingEtxsRollupPacket => None
  end.

(** A type satisfies the interface [Packet] when it has both methods. *)
Definition implements_Packet (p : PacketType.t) : bool :=
  match Name p, Kind p with
  | Some _, Some _ => true
  | _, _ => false
  end.

(** ** Receive path *)

(** Modelled from the spec: the message a transport hands over, with its
    kind code, its serialized size and its undecoded payload ([p2p.Msg],
    not among the sources). *)
Record Msg : Type := {
  Code : Z;
  Size : Z;
  Payload : list byte }.

(** Modelled from the spec: the receive path ([handleMessage], not among
    the sources).  A message whose serialized size exceeds the cap is
    rejected before decoding is attempted; [attempts] lists the messages
    handed to the decoder so far, latest first. *)
Definition handleMessage {A : Type} (decode : Msg -> error + A)
    (attempts : list Msg) (msg : Msg) : list Msg * (error + A) :=
  if maxMessageSize <? Size msg then (attempts, inl errMsgTooLarge)
  else (msg :: attempts, decode msg).

(** The error variables of the file. *)
Definition protocol_errors : list error :=
  [ errNoStatusMsg; errMsgTooLarge; errDecode; errInvalidMsgCode;
    errProtocolVersionMismatch; errNetworkIDMismatch; errGenesisMismatch;
    errForkIDRejected; errLocationMismatch ].

(** ** Wire form of structs and envelopes *)

Module rlp_list.

(** Modelled from the spec: further error values of the codec (package
    [rlp], not among the sources). *)
Definition ErrExpectedList : error := errors_New "rlp: expected List".
Definition ErrValueTooLarge : error :=
  errors_New "rlp: value size exceeds available input length".
Definition errNotAtEOL : error :=
  errors_New "rlp: call of ListEnd not positioned at EOL".

(** Modelled from the spec: the header of a list whose items take [size]
    bytes. *)
Definition encodeListHeader (size : Z) : list byte :=
  if size <? 56 then [byte_of_Z (0xC0 + size)]
  else let ss := rlp.putint size in byte_of_Z (0xF7 + Z.of_nat (length ss)) :: ss.

(** Modelled from the spec: the generic encoding of a struct, an ordered
    sequence of fields: the list of the encodings of its fields, in the
    order of their declaration; [fields] is their concatenation. *)
Definition encode_struct (fields : list byte) : list byte :=
  encodeListHeader (Z.of_nat (length fields)) ++ fields.

(** Modelled from the spec: [Stream.List], entering the list at the head
    of the stream: the stream over the items of the list and the stream
    over what follows the list.  A list that claims more bytes than the
    input holds is refused. *)
Definition Stream_List (s : rlp.Stream) : rlp.Stream * rlp.Stream * option error :=
  let '(s1, (k, size, err)) := rlp.Stream_Kind s in
  match err with
  | Some e => (s1, s1, Some e)
  | None =>
      match k with
      | rlp.List =>
          if (length (rlp.input s1) <? Z.to_nat size)%nat
          then (s1, s1, Some ErrValueTooLarge)
          else (rlp.NewStream (take (Z.to_nat size) (rlp.input s1)),
                {| rlp.input := drop (Z.to_nat size) (rlp.input s1);
                   rlp.kind := None; rlp.byteval := rlp.byteval s1 |},
                None)
      | _ => (s1, s1, Some ErrExpectedList)
      end
  end.

(** Modelled from the spec: [Stream.ListEnd], leaving a list: every item
    must have been read. *)
Definition Stream_ListEnd (inner : rlp.Stream) : option error :=
  match rlp.input inner with
  | [] => None
  | _ :: _ => Some errNotAtEOL
  end.

(** Modelled from the spec: the generic decoding of a struct: enter the
    list, decode the fields in the order of their declaration with
    [fields], leave the list.  The result carries the contents of the
    struct after the call. *)
Definition decode_struct {A : Type}
    (fields : rlp.Stream -> A -> rlp.Stream * A * option error)
    (s : rlp.Stream) (a : A) : rlp.Stream * A * option error :=
  let '(inner, outer, err) := Stream_List s in
  match err with
  | Some e => (outer, a, Some e)
  | None =>
      let '(inner1, a1, err1) := fields inner a in
      match err1 with
      | Some e => (outer, a1, Some e)
      | None =>
          match Stream_ListEnd inner1 with
          | Some e => (outer, a1, Some e)
          | None => (outer, a1, None)
          end
      end
  end.

End rlp_list.

(** Modelled from the spec: the fields of an eth/66 struct on the wire, in
    the order of the declaration: [RequestId uint64] first, the embedded
    payload second, the payload encoded by its own encoder [encP]. *)
Definition Packet66_fields {P : Type} (encP : P -> list byte) (e : Packet66 P)
  : list byte :=
  rlp.encode_uint64 (RequestId e) ++ encP (Embedded e).

(** Modelled from the spec: [rlp.Encode] of an eth/66 struct. *)
Definition encode_Packet66 {P : Type} (encP : P -> list byte) (e : Packet66 P)
  : list byte :=
  rlp_list.encode_struct (Packet66_fields encP e).

(** Modelled from the spec: the field decoders of an eth/66 struct:
    [RequestId] with the decoder of [uint64], then the embedded payload
    with its own decoder [decP]. *)
Definition Packet66_decode_fields {P : Type}
    (decP : rlp.Stream -> P -> rlp.Stream * P * option error)
    (s : rlp.Stream) (e : Packet66 P) : rlp.Stream * Packet66 P * option error :=
  let '(s1, id, err) := rlp.Decode_uint64 s (RequestId e) in
  match err with
  | Some e1 => (s1, mkPacket66 id (Embedded e), Some e1)
  | None =>
      let '(s2, p, err2) := decP s1 (Embedded e) in
      (s2, mkPacket66 id p, err2)
  end.

(** Modelled from the spec: [Stream.Decode] into an eth/66 struct. *)
Definition decode_Packet66 {P : Type}
    (decP : rlp.Stream -> P -> rlp.Stream * P * option error)
    (s : rlp.Stream) (e : Packet66 P) : rlp.Stream * Packet66 P * option error :=
  rlp_list.decode_struct (Packet66_decode_fields decP) s e.

(** Modelled from the spec: [rlp.Encode] of a [GetBlockPacket], a struct
    of one field, the hash. *)
Definition encode_GetBlockPacket (p : GetBlockPacket) : list byte :=
  rlp_list.encode_struct (rlp.encode_byteArray (GetBlock_Hash p)).

(** Modelled from the spec: [Stream.Decode] into a [GetBlockPacket]. *)
Definition decode_GetBlockPacket (s : rlp.Stream) (p : GetBlockPacket)
  : rlp.Stream * GetBlockPacket * option error :=
  rlp_list.decode_struct
    (fun inner q =>
       let '(s1, h, err) := rlp.Decode_byteArray inner (GetBlock_Hash q) in
       (s1, {| GetBlock_Hash := h |}, err))
    s p.

(** ** Derived notions *)

(** Go's index expression [protocolLengths[v]]: the zero value for a
    version that is not a key of the map. *)
Definition protocolLengths_at (v : Z) : Z := default 0 (protocolLengths !! v).

(** The union invariant of an origin selector: the hash excludes the
    number and the number excludes the hash. *)
Definition origin_valid (hn : HashOrNumber) : Prop :=
  Hash hn = zero_Hash \/ Number hn = 0.

(** ** Sample values *)

(** A hash that is not the zero hash. *)
Definition example_hash : common_Hash := x01 :: repeat x00 31.

(** The stream left by [Stream.Kind] on the encoding of [example_hash]. *)
Definition example_hash_stream : rlp.Stream :=
  {| rlp.input := example_hash;
     rlp.kind := Some (rlp.String, 32, None);
     rlp.byteval := x00 |}.

(** * Properties *)

(** ** Message registry *)

(** C7: the registry gives 19 message kinds to version 65 and 21 to
    version 66, knows no other version, and the list of supported versions
    starts with the newer version 66, the primary one. *)
Theorem protocol_versions_registry :
  protocolLengths !! ETH65 = Some 19 /\
  protocolLengths !! ETH66 = Some 21 /\
  dom protocolLengths = ({[ ETH65; ETH66 ]} : gset Z) /\
  ProtocolVersions = [ETH66; ETH65] /\
  head ProtocolVersions = Some ETH66 /\
  ETH65 < ETH66.
Proof.
  repeat split; reflexivity.
Qed.

Lemma message_codes_NoDup : NoDup message_codes.
Proof. apply (bool_decide_unpack _). vm_compute. exact I. Qed.

Lemma Kind_injective (p q : PacketType.t) (c : Z) :
  Kind p = Some c -> Kind q = Some c -> p = q.
Proof.
  destruct p, q; cbv; intros Hp Hq; try reflexivity; congruence.
Qed.

Lemma Kind_in_message_codes (p : PacketType.t) (c : Z) :
  Kind p = Some c -> c ∈ message_codes.
Proof.
  destruct p; cbn; intros [= <-]; apply (bool_decide_unpack _); vm_compute; exact I.
Qed.

(** Every code fits the single byte that [Kind] returns. *)
Lemma message_codes_byte : Forall (fun c => 0 <= c < 256) message_codes.
Proof. repeat constructor; cbv; congruence. Qed.

(** C4: the twenty message kind codes of the catalogue are pairwise
    distinct, every [Kind] method returns one of them, and two payload
    types whose [Kind] methods return the same code are the same type. *)
Theorem message_kind_codes_distinct :
  NoDup message_codes /\
  (forall (p : PacketType.t) (c : Z), Kind p = Some c -> c ∈ message_codes) /\
  (forall (p q : PacketType.t) (c : Z), Kind p = Some c -> Kind q = Some c -> p = q).
Proof.
  split; [exact message_codes_NoDup|].
  split; [exact Kind_in_message_codes | exact Kind_injective].
Qed.

Lemma message_kind_codes_distinct_witness :
  NoDup message_codes /\
  GetBlockMsg ∈ message_codes /\
  PacketType.GetBlockPacket = PacketType.GetBlockPacket.
Proof.
  destruct message_kind_codes_distinct as (Hnd & Hin & Hinj).
  split; [exact Hnd|]. split.
  - apply (Hin PacketType.GetBlockPacket). reflexivity.
  - apply (Hinj _ _ GetBlockMsg); reflexivity.
Defined.

(** C8: the cap on the size of a protocol message is exactly 10 MiB, the
    message-too-large error differs from every other error of the file,
    and a message of any kind whose size exceeds the cap is answered with
    that error while the decoder is handed nothing. *)
Theorem oversized_message_rejected :
  maxMessageSize = 10 * 1024 * 1024 /\
  maxMessageSize = 10485760 /\
  NoDup protocol_errors /\
  forall (A : Type) (decode : Msg -> error + A) (attempts : list Msg) (msg : Msg),
    maxMessageSize < Size msg ->
    handleMessage decode attempts msg = (attempts, inl errMsgTooLarge).
Proof.
  split; [reflexivity|]. split; [reflexivity|]. split.
  - apply (bool_decide_unpack _). vm_compute. exact I.
  - intros A decode attempts msg Hsize. unfold handleMessage.
    apply Z.ltb_lt in Hsize. rewrite Hsize. reflexivity.
Qed.

Lemma oversized_message_rejected_witness :
  handleMessage (A := unit) (fun _ => inr tt) []
    {| Code := NewBlockMsg; Size := 10 * 1024 * 1024 + 1; Payload := [] |}
  = ([], inl errMsgTooLarge).
Proof.
  destruct oversized_message_rejected as (_ & _ & _ & Hreject).
  apply Hreject. vm_compute. reflexivity.
Defined.

(** ** Packet catalogue *)

(** C9: of the twenty payload types of the catalogue exactly one,
    [GetOnePendingEtxsRollupPacket], has neither a [Name] nor a [Kind]
    method, although its message code is defined and the sibling query
    [GetOnePendingEtxsPacket] has both. *)
Theorem rollup_query_lacks_Name_and_Kind :
  Name PacketType.GetOnePendingEtxsRollupPacket = None /\
  Kind PacketType.GetOnePendingEtxsRollupPacket = None /\
  GetOnePendingEtxsRollupMsg ∈ message_codes /\
  Name PacketType.GetOnePendingEtxsPacket = Some "GetOnePendingEtxs"%string /\
  Kind PacketType.GetOnePendingEtxsPacket = Some GetOnePendingEtxsMsg /\
  filter (fun p => implements_Packet p = false) PacketType.all
    = [PacketType.GetOnePendingEtxsRollupPacket].
Proof.
  repeat split; try reflexivity.
  apply (bool_decide_unpack _). vm_compute. exact I.
Qed.

Lemma PacketType_all_complete (p : PacketType.t) : p ∈ PacketType.all.
Proof. destruct p; apply (bool_decide_unpack _); vm_compute; exact I. Qed.

(** Every other payload type publishes a name and a kind code. *)
Lemma Name_Kind_of_Packet (p : PacketType.t) :
  p <> PacketType.GetOnePendingEtxsRollupPacket ->
  exists (name : string) (code : Z), Name p = Some name /\ Kind p = Some code.
Proof.
  intros Hp. destruct p; try (eexists _, _; split; reflexivity).
  congruence.
Qed.

Example Unpack_two_announcements :
  NewBlockHashesPacket_Unpack
    [ {| entry_Hash := example_hash; entry_Number := 7 |};
      {| entry_Hash := zero_Hash; entry_Number := 8 |} ]
  = ([example_hash; zero_Hash], [7; 8]).
Proof. reflexivity. Qed.

Example Unpack_no_announcement : NewBlockHashesPacket_Unpack [] = ([], []).
Proof. reflexivity. Qed.

Example Unpack_bodies_with_nil :
  BlockBodiesPacket_Unpack (Transaction := nat) (Header := nat) 0%nat
    [ Some {| Transactions := [1%nat; 2%nat]; Uncles := []; ExtTransactions := [3%nat];
              SubManifest := 4%nat |};
      None ]
  = None.
Proof. reflexivity. Qed.

(** The two projections of an announcement batch. *)
Lemma NewBlockHashes_range (l : NewBlockHashesPacket) :
  forall (i : nat) (hashes : list common_Hash) (numbers : list Z),
    length hashes = (i + length l)%nat ->
    length numbers = (i + length l)%nat ->
    range_from NewBlockHashes_assign i l (hashes, numbers)
    = (take i hashes ++ (entry_Hash <$> l), take i numbers ++ (entry_Number <$> l)).
Proof.
  induction l as [|e l IH]; intros i hashes numbers Hh Hn;
    cbn [range_from length NewBlockHashes_assign] in *.
  - rewrite !take_ge by lia. rewrite !app_nil_r. reflexivity.
  - rewrite IH by (rewrite length_insert; lia).
    rewrite (take_S_r _ i (entry_Hash e)) by (apply list_lookup_insert_eq; lia).
    rewrite (take_S_r _ i (entry_Number e)) by (apply list_lookup_insert_eq; lia).
    rewrite !take_insert_ge by lia.
    rewrite <- !app_assoc. reflexivity.
Qed.

Lemma NewBlockHashesPacket_Unpack_fmap (p : NewBlockHashesPacket) :
  NewBlockHashesPacket_Unpack p = (entry_Hash <$> p, entry_Number <$> p).
Proof.
  unfold NewBlockHashesPacket_Unpack.
  rewrite NewBlockHashes_range by (rewrite length_replicate; reflexivity).
  reflexivity.
Qed.

Section BodiesUnpack.
Context {Transaction Header BlockManifest : Type}.
Variable BlockManifest_zero : BlockManifest.

Abbreviation BlockBody := (BlockBody Transaction Header BlockManifest).

Lemma BlockBodies_range (l : list BlockBody) :
  forall (i : nat) txset uncleset etxset manifest,
    length txset = (i + length l)%nat ->
    length uncleset = (i + length l)%nat ->
    length etxset = (i + length l)%nat ->
    length manifest = (i + length l)%nat ->
    range_from (BlockBodies_assign Transaction Header BlockManifest)
      i (Some <$> l) (Some (txset, uncleset, etxset, manifest))
    = Some (take i txset ++ (Transactions <$> l),
            take i uncleset ++ (Uncles <$> l),
            take i etxset ++ (ExtTransactions <$> l),
            take i manifest ++ (SubManifest <$> l)).
Proof.
  induction l as [|b l IH]; intros i txset uncleset etxset manifest Ht Hu He Hm;
    cbn [range_from length fmap list_fmap BlockBodies_assign] in *.
  - rewrite !take_ge by lia. rewrite !app_nil_r. reflexivity.
  - rewrite IH by (rewrite length_insert; lia).
    rewrite (take_S_r _ i (Transactions b)) by (apply list_lookup_insert_eq; lia).
    rewrite (take_S_r _ i (Uncles b)) by (apply list_lookup_insert_eq; lia).
    rewrite (take_S_r _ i (ExtTransactions b)) by (apply list_lookup_insert_eq; lia).
    rewrite (take_S_r _ i (SubManifest b)) by (apply list_lookup_insert_eq; lia).
    rewrite !take_insert_ge by lia.
    rewrite <- !app_assoc. reflexivity.
Qed.

Lemma BlockBodiesPacket_Unpack_fmap (bodies : list BlockBody) :
  BlockBodiesPacket_Unpack BlockManifest_zero (Some <$> bodies)
  = Some (Transactions <$> bodies, Uncles <$> bodies,
          ExtTransactions <$> bodies, SubManifest <$> bodies).
Proof.
  unfold BlockBodiesPacket_Unpack.
  rewrite length_fmap.
  rewrite BlockBodies_range by (rewrite length_replicate; reflexivity).
  reflexivity.
Qed.

(** A [nil] entry stops the projection: the dereference panics. *)
Lemma BlockBodies_range_None (l : list (option BlockBody)) (i : nat) :
  range_from (BlockBodies_assign Transaction Header BlockManifest) i l None = None.
Proof.
  revert i. induction l as [|b l IH]; intros i; cbn [range_from]; [reflexivity|].
  apply IH.
Qed.

(** C5: unpacking a batch of [N] announcements gives [N] hashes and
    [N] numbers, and unpacking a batch of [N] bodies gives four
    sequences of length [N]; position [i] of each sequence holds the
    field of entry [i], and holds nothing when the batch has no entry
    [i]. *)
Theorem Unpack_projections (p : NewBlockHashesPacket) (bodies : list BlockBody) :
  (exists hashes numbers,
      NewBlockHashesPacket_Unpack p = (hashes, numbers) /\
      length hashes = length p /\
      length numbers = length p /\
      forall i : nat,
        hashes !! i = entry_Hash <$> p !! i /\
        numbers !! i = entry_Number <$> p !! i) /\
  (exists txset uncleset etxset manifest,
      BlockBodiesPacket_Unpack BlockManifest_zero (Some <$> bodies)
        = Some (txset, uncleset, etxset, manifest) /\
      length txset = length bodies /\
      length uncleset = length bodies /\
      length etxset = length bodies /\
      length manifest = length bodies /\
      forall i : nat,
        txset !! i = Transactions <$> bodies !! i /\
        uncleset !! i = Uncles <$> bodies !! i /\
        etxset !! i = ExtTransactions <$> bodies !! i /\
        manifest !! i = SubManifest <$> bodies !! i).
Proof.
  split.
  - eexists _, _. split; [apply NewBlockHashesPacket_Unpack_fmap|].
    rewrite !length_fmap. repeat split; apply list_lookup_fmap.
  - eexists _, _, _, _. split; [apply BlockBodiesPacket_Unpack_fmap|].
    rewrite !length_fmap. repeat split; apply list_lookup_fmap.
Qed.

(** A batch that holds a [nil] pointer has no projection: [Unpack]
    dereferences every entry. *)
Lemma BlockBodiesPacket_Unpack_nil (p : list (option BlockBody)) :
  None ∈ p -> BlockBodiesPacket_Unpack BlockManifest_zero p = None.
Proof.
  unfold BlockBodiesPacket_Unpack.
  generalize (Some (replicate (length p) ([] : list Transaction),
                    replicate (length p) ([] : list Header),
                    replicate (length p) ([] : list Transaction),
                    replicate (length p) BlockManifest_zero)).
  generalize 0%nat.
  induction p as [|b p IH]; intros i st Hin.
  - apply not_elem_of_nil in Hin. contradiction.
  - cbn [range_from]. apply elem_of_cons in Hin as [<-|Hin].
    + replace (BlockBodies_assign Transaction Header BlockManifest i None st)
        with (@None (list (list Transaction) * list (list Header)
                     * list (list Transaction) * list BlockManifest))
        by (destruct st as [[[[? ?] ?] ?]|]; reflexivity).
      apply BlockBodies_range_None.
    + apply IH. exact Hin.
Qed.
End BodiesUnpack.

(** ** Envelopes of eth/66 *)

(** An envelope built from a request identifier [R] and a payload holds
    exactly these two: its [RequestId] is [R], its embedded payload is the
    payload given, and every envelope is the one built from its own two
    fields.  For [GetBlockHeadersPacket66], which embeds a pointer, the
    pointer leads back to the query. *)
Theorem envelope_wrap_unwrap (P : Type) (R : Z) (payload : P)
    (e : Packet66 P) (query : GetBlockHeadersPacket) :
  RequestId (mkPacket66 R payload) = R /\
  Embedded (mkPacket66 R payload) = payload /\
  mkPacket66 (RequestId e) (Embedded e) = e /\
  RequestId (mkPacket66 R (Some query) : GetBlockHeadersPacket66) = R /\
  Embedded (mkPacket66 R (Some query) : GetBlockHeadersPacket66) = Some query.
Proof.
  destruct e. repeat split.
Qed.

(** ** Origin selector *)

Section OriginCodecFacts.
Context {codec : Codec}.

(** C2: [EncodeRLP] emits the number with the generic numeric encoding
    when the hash is the zero hash; otherwise, when the number is not
    zero, it fails with the ambiguous-origin error, which names both
    fields, and writes nothing; otherwise it emits the hash with the
    generic fixed-width-bytes encoding. *)
Theorem EncodeRLP_cases (hn : HashOrNumber) (w : Writer) :
  (Hash hn = zero_Hash ->
     EncodeRLP hn w = rlp_Encode_uint64 w (Number hn)) /\
  (Hash hn <> zero_Hash -> Number hn <> 0 ->
     EncodeRLP hn w = (w, Some (errBothOrigin (Hash hn) (Number hn)))) /\
  (Hash hn <> zero_Hash -> Number hn = 0 ->
     EncodeRLP hn w = rlp_Encode_Hash w (Hash hn)).
Proof.
  unfold EncodeRLP. repeat split.
  - intros Hz. rewrite decide_True by assumption. reflexivity.
  - intros Hnz Hn. rewrite decide_False by assumption.
    apply Z.eqb_neq in Hn. rewrite Hn. reflexivity.
  - intros Hnz Hn. rewrite decide_False by assumption.
    rewrite Hn. reflexivity.
Qed.

(** C3: once the size tag of the incoming value is read, [DecodeRLP]
    decodes the value as a hash with the number set to zero when the
    size is 32, decodes it as a number with the hash set to the zero
    hash when the size is at most 8, and for every other size fails
    with the invalid-origin-size error and leaves the selector as it
    was. *)
Theorem DecodeRLP_by_size (hn : HashOrNumber) (s s1 : Stream)
    (k : rlp.Kind) (size : Z) :
  Stream_Kind s = (s1, (k, size, None)) ->
  (size = 32 ->
     DecodeRLP hn s =
       let '(s2, h, err) := Stream_Decode_Hash s1 (Hash hn) in
       (s2, {| Hash := h; Number := 0 |}, err)) /\
  (size <= 8 ->
     DecodeRLP hn s =
       let '(s2, n, err) := Stream_Decode_uint64 s1 (Number hn) in
       (s2, {| Hash := zero_Hash; Number := n |}, err)) /\
  (size <> 32 -> 8 < size ->
     DecodeRLP hn s = (s1, hn, Some (errInvalidOriginSize size))).
Proof.
  intros HK. unfold DecodeRLP. rewrite HK. repeat split.
  - intros ->. reflexivity.
  - intros Hle. destruct (size =? 32) eqn:E32; [apply Z.eqb_eq in E32; lia|].
    apply Z.leb_le in Hle. rewrite Hle. reflexivity.
  - intros Hne Hgt. apply Z.eqb_neq in Hne. rewrite Hne.
    destruct (size <=? 8) eqn:E8; [apply Z.leb_le in E8; lia|]. reflexivity.
Qed.

(** A failure to read the size tag is returned as it is. *)
Lemma DecodeRLP_Kind_error (hn : HashOrNumber) (s s1 : Stream)
    (k : rlp.Kind) (size : Z) (e : error) :
  Stream_Kind s = (s1, (k, size, Some e)) ->
  DecodeRLP hn s = (s1, hn, Some e).
Proof. intros HK. unfold DecodeRLP. rewrite HK. reflexivity. Qed.

(** C10: whatever the selector held before the call and whatever the
    stream holds, a successful [DecodeRLP] leaves the hash equal to the
    zero hash or the number equal to zero. *)
Theorem DecodeRLP_union_invariant (hn hn' : HashOrNumber) (s s' : Stream) :
  DecodeRLP hn s = (s', hn', None) ->
  Hash hn' = zero_Hash \/ Number hn' = 0.
Proof.
  unfold DecodeRLP.
  destruct (Stream_Kind s) as [s1 [[k size] [e|]]]; [discriminate|].
  destruct (size =? 32).
  - destruct (Stream_Decode_Hash s1 _) as [[s2 h] err].
    intros [= _ <- _]. right. reflexivity.
  - destruct (size <=? 8); [|discriminate].
    destruct (Stream_Decode_uint64 s1 _) as [[s2 n] err].
    intros [= _ <- _]. left. reflexivity.
Qed.
End OriginCodecFacts.

(** ** The generic codec on integers and byte arrays *)

Lemma byte_to_Z_range (b : byte) : 0 <= byte_to_Z b < 256.
Proof.
  unfold byte_to_Z. pose proof (Byte.to_N_bounded b) as Hb.
  apply N2Z.inj_le in Hb. change (Z.of_N 255) with 255 in Hb. lia.
Qed.

Lemma byte_to_of_Z (z : Z) : byte_to_Z (byte_of_Z z) = z mod 256.
Proof.
  unfold byte_to_Z, byte_of_Z.
  pose proof (Z.mod_pos_bound z 256 ltac:(lia)) as Hm.
  destruct (Byte.of_N (Z.to_N (z mod 256))) as [b|] eqn:E.
  - apply Byte.to_of_N in E. rewrite E. apply Z2N.id. lia.
  - apply Byte.of_N_None_iff in E. lia.
Qed.

Lemma byte_to_of_Z_small (z : Z) : 0 <= z < 256 -> byte_to_Z (byte_of_Z z) = z.
Proof. intros Hz. rewrite byte_to_of_Z. apply Z.mod_small. exact Hz. Qed.

Lemma byte_of_to_Z (b : byte) : byte_of_Z (byte_to_Z b) = b.
Proof.
  unfold byte_of_Z. rewrite Z.mod_small by apply byte_to_Z_range.
  unfold byte_to_Z. rewrite N2Z.id, Byte.of_to_N. reflexivity.
Qed.

Module rlp_facts.
Import rlp.

Lemma length_be_bytes (n : nat) (i : Z) : length (be_bytes n i) = n.
Proof.
  revert i. induction n as [|n IH]; intros i; cbn [be_bytes]; [reflexivity|].
  rewrite length_app, IH. cbn. lia.
Qed.

Lemma fold_be_bytes (n : nat) :
  forall (i acc : Z),
    fold_left (fun acc b => acc * 256 + byte_to_Z b) (be_bytes n i) acc
    = acc * 2 ^ (8 * Z.of_nat n) + i mod 2 ^ (8 * Z.of_nat n).
Proof.
  induction n as [|n IH]; intros i acc; cbn [be_bytes].
  - cbn. rewrite Z.mod_1_r. lia.
  - rewrite fold_left_app, IH. cbn [fold_left].
    rewrite byte_to_of_Z, Z.shiftr_div_pow2 by lia.
    replace (8 * Z.of_nat (S n)) with (8 + 8 * Z.of_nat n) by lia.
    rewrite Z.pow_add_r by lia. change (2 ^ 8) with 256.
    rewrite (Z.rem_mul_r i 256 (2 ^ (8 * Z.of_nat n))) by lia.
    lia.
Qed.

Lemma be_uint_be_bytes (n : nat) (i : Z) :
  0 <= i < 2 ^ (8 * Z.of_nat n) -> be_uint (be_bytes n i) = i.
Proof.
  intros Hi. unfold be_uint. rewrite fold_be_bytes, Z.mod_small by exact Hi. lia.
Qed.

Lemma hd_be_bytes (n : nat) :
  forall i : Z, hd x00 (be_bytes (S n) i) = byte_of_Z (i ≫ (8 * Z.of_nat n)).
Proof.
  induction n as [|n IH]; intros i.
  - cbn. reflexivity.
  - change (be_bytes (S (S n)) i) with (be_bytes (S n) (i ≫ 8) ++ [byte_of_Z i]).
    specialize (IH (i ≫ 8)).
    destruct (be_bytes (S n) (i ≫ 8)) as [|b t] eqn:E.
    + apply (f_equal length) in E. rewrite length_be_bytes in E. discriminate.
    + cbn [app hd] in *. rewrite IH, Z.shiftr_shiftr by lia.
      f_equal. f_equal. lia.
Qed.

Lemma intsize_spec (fuel : nat) :
  forall i : Z,
    0 < i < 2 ^ (8 * Z.of_nat fuel) ->
    (1 <= intsize fuel i <= fuel)%nat /\
    2 ^ (8 * (Z.of_nat (intsize fuel i) - 1)) <= i < 2 ^ (8 * Z.of_nat (intsize fuel i)).
Proof.
  induction fuel as [|f IH]; intros i Hi.
  - cbn in Hi. lia.
  - cbn [intsize]. rewrite Z.shiftr_div_pow2 by lia. change (2 ^ 8) with 256.
    destruct (i / 256 =? 0) eqn:E.
    + apply Z.eqb_eq in E.
      assert (i < 256) by (apply Z.div_small_iff in E; lia).
      cbn. lia.
    + apply Z.eqb_neq in E.
      assert (Hq : 0 < i / 256) by (pose proof (Z.div_pos i 256); lia).
      replace (8 * Z.of_nat (S f)) with (8 + 8 * Z.of_nat f) in Hi by lia.
      rewrite Z.pow_add_r in Hi by lia. change (2 ^ 8) with 256 in Hi.
      assert (Hq' : i / 256 < 2 ^ (8 * Z.of_nat f))
        by (apply Z.div_lt_upper_bound; lia).
      destruct (IH (i / 256) (conj Hq Hq')) as [Hk [Hlo Hhi]].
      split; [lia|].
      set (k := intsize f (i / 256)) in *.
      replace (8 * (Z.of_nat (S k) - 1)) with (8 + 8 * (Z.of_nat k - 1)) by lia.
      replace (8 * Z.of_nat (S k)) with (8 + 8 * Z.of_nat k) by lia.
      rewrite !Z.pow_add_r by lia. change (2 ^ 8) with 256.
      pose proof (Z.div_mod i 256 ltac:(lia)) as Hdm.
      pose proof (Z.mod_pos_bound i 256 ltac:(lia)) as Hmb.
      nia.
Qed.
End rlp_facts.

Module rlp_roundtrip.
Import rlp rlp_facts.

Lemma Kind_cached (inp : list byte) (k : Kind * Z * option error) (bv : byte) :
  rlp.Stream_Kind {| input := inp; kind := Some k; byteval := bv |}
  = ({| input := inp; kind := Some k; byteval := bv |}, k).
Proof. reflexivity. Qed.

Lemma Kind_single_byte (n : Z) (body : list byte) (bv : byte) :
  0 <= n < 128 ->
  rlp.Stream_Kind {| input := byte_of_Z n :: body; kind := None; byteval := bv |}
  = ({| input := body; kind := Some (Byte, 0, None); byteval := byte_of_Z n |},
     (Byte, 0, None)).
Proof.
  intros Hn. unfold rlp.Stream_Kind, readKind, readByte. cbn [input kind byteval].
  rewrite byte_to_of_Z_small by lia.
  destruct (n <? 128) eqn:E; [|apply Z.ltb_ge in E; lia].
  reflexivity.
Qed.

Lemma Kind_short_string (size : Z) (body : list byte) (bv : byte) :
  0 <= size < 56 ->
  rlp.Stream_Kind
    {| input := byte_of_Z (0x80 + size) :: body; kind := None; byteval := bv |}
  = ({| input := body; kind := Some (String, size, None); byteval := x00 |},
     (String, size, None)).
Proof.
  intros Hs. unfold rlp.Stream_Kind, readKind, readByte. cbn [input kind byteval].
  rewrite byte_to_of_Z_small by lia.
  destruct (128 + size <? 128) eqn:E1; [apply Z.ltb_lt in E1; lia|].
  destruct (128 + size <? 184) eqn:E2; [|apply Z.ltb_ge in E2; lia].
  cbn [input kind byteval]. repeat f_equal; lia.
Qed.

Lemma readUint_be_bytes (k : nat) (n : Z) (rest : list byte)
    (c : option (Kind * Z * option error)) (bv : byte) :
  (1 <= k)%nat ->
  2 ^ (8 * (Z.of_nat k - 1)) <= n < 2 ^ (8 * Z.of_nat k) ->
  readUint {| input := be_bytes k n ++ rest; kind := c; byteval := bv |} (Z.of_nat k)
  = ({| input := rest; kind := None; byteval := bv |}, n, None).
Proof.
  intros Hk Hn. unfold readUint.
  destruct (Z.of_nat k =? 0) eqn:E0; [apply Z.eqb_eq in E0; lia|].
  destruct (Z.of_nat k =? 1) eqn:E1.
  - apply Z.eqb_eq in E1. assert (k = 1%nat) as -> by lia.
    change (2 ^ (8 * (Z.of_nat 1 - 1))) with 1 in Hn.
    change (2 ^ (8 * Z.of_nat 1)) with 256 in Hn.
    cbn [be_bytes app]. unfold readByte. cbn [input kind byteval].
    rewrite byte_to_of_Z_small by lia. reflexivity.
  - apply Z.eqb_neq in E1. unfold readFull. cbn [input kind byteval].
    rewrite Nat2Z.id.
    destruct (length (be_bytes k n ++ rest) <? k)%nat eqn:El.
    + apply Nat.ltb_lt in El. rewrite length_app, length_be_bytes in El. lia.
    + rewrite take_app_length', drop_app_length' by (rewrite length_be_bytes; reflexivity).
      destruct k as [|k']; [lia|].
      rewrite hd_be_bytes, byte_to_of_Z, Z.shiftr_div_pow2 by lia.
      replace (8 * (Z.of_nat (S k') - 1)) with (8 * Z.of_nat k') in Hn by lia.
      replace (8 * Z.of_nat (S k')) with (8 + 8 * Z.of_nat k') in Hn by lia.
      rewrite Z.pow_add_r in Hn by lia. change (2 ^ 8) with 256 in Hn.
      assert (Hq : 1 <= n / 2 ^ (8 * Z.of_nat k') < 256).
      { split.
        - apply Z.div_le_lower_bound; lia.
        - apply Z.div_lt_upper_bound; lia. }
      rewrite Z.mod_small by lia.
      destruct (n / 2 ^ (8 * Z.of_nat k') =? 0) eqn:Eh; [apply Z.eqb_eq in Eh; lia|].
      rewrite be_uint_be_bytes; [reflexivity|].
      replace (8 * Z.of_nat (S k')) with (8 + 8 * Z.of_nat k') by lia.
      rewrite Z.pow_add_r by lia. change (2 ^ 8) with 256. lia.
Qed.

(** The generic numeric encoding is a value of at most 8 bytes that
    decodes to the number encoded. *)
Lemma uint64_encode_decode (n old : Z) (rest : list byte) (bv0 : byte) :
  0 <= n < 2 ^ 64 ->
  exists (s1 : rlp.Stream) (k : Kind) (size : Z) (bv : byte),
    rlp.Stream_Kind {| input := encode_uint64 n ++ rest; kind := None; byteval := bv0 |}
      = (s1, (k, size, None)) /\
    0 <= size <= 8 /\
    Decode_uint64 s1 old = ({| input := rest; kind := None; byteval := bv |}, n, None).
Proof.
  intros Hn. unfold encode_uint64.
  destruct (n =? 0) eqn:E0; [|destruct (n <? 128) eqn:E128].
  - apply Z.eqb_eq in E0. subst n. cbn [app].
    eexists _, _, _, _. split; [apply (Kind_short_string 0); lia|].
    split; [lia|]. reflexivity.
  - apply Z.eqb_neq in E0. apply Z.ltb_lt in E128. cbn [app].
    eexists _, _, _, _. split; [apply Kind_single_byte; lia|].
    split; [lia|].
    unfold Decode_uint64, Stream_uint64. rewrite Kind_cached.
    cbn [byteval input kind]. rewrite byte_to_of_Z_small by lia.
    destruct (n =? 0) eqn:E; [apply Z.eqb_eq in E; lia|]. reflexivity.
  - apply Z.eqb_neq in E0. apply Z.ltb_ge in E128.
    destruct (intsize_spec 8 n) as [Hk Hb]; [change (2 ^ (8 * Z.of_nat 8)) with (2 ^ 64); lia|].
    unfold putint. set (k := intsize 8 n) in *.
    cbn zeta. rewrite length_be_bytes. cbn [app].
    eexists _, _, _, _. split; [apply Kind_short_string; lia|].
    split; [lia|].
    unfold Decode_uint64, Stream_uint64. rewrite Kind_cached.
    destruct (8 <? Z.of_nat k) eqn:E8; [apply Z.ltb_lt in E8; lia|].
    rewrite readUint_be_bytes by (try lia; exact Hb).
    destruct (n <? 128) eqn:E; [apply Z.ltb_lt in E; lia|].
    rewrite andb_false_r. reflexivity.
Qed.

(** The generic fixed-width-bytes encoding of a 32-byte array is a
    value of 32 bytes that decodes to the array encoded. *)
Lemma Hash_encode_decode (h old : common_Hash) (rest : list byte) (bv0 : byte) :
  length h = 32%nat -> length old = 32%nat ->
  exists (s1 : rlp.Stream),
    rlp.Stream_Kind {| input := encode_byteArray h ++ rest; kind := None; byteval := bv0 |}
      = (s1, (String, 32, None)) /\
    Decode_byteArray s1 old = ({| input := rest; kind := None; byteval := x00 |}, h, None).
Proof.
  intros Hh Hold.
  assert (Henc : encode_byteArray h = byte_of_Z (0x80 + 32) :: h).
  { destruct h as [|b0 [|b1 t]]; try discriminate.
    unfold encode_byteArray. rewrite Hh. reflexivity. }
  rewrite Henc. cbn [app].
  eexists. split; [apply (Kind_short_string 32); lia|].
  unfold Decode_byteArray. rewrite Kind_cached. rewrite Hold.
  change (Z.of_nat 32 <? 32) with false. change (32 <? Z.of_nat 32) with false.
  cbn match. unfold readFull. cbn [input kind byteval].
  destruct (length (h ++ rest) <? 32)%nat eqn:El.
  { apply Nat.ltb_lt in El. rewrite length_app in El. lia. }
  rewrite take_app_length', drop_app_length' by (symmetry; exact Hh).
  rewrite Hh, drop_ge, app_nil_r by lia.
  reflexivity.
Qed.
End rlp_roundtrip.

Example encode_number_zero :
  EncodeRLP (codec := go_rlp) {| Hash := zero_Hash; Number := 0 |} [] = ([x80], None).
Proof. reflexivity. Qed.

Example encode_number_15 :
  EncodeRLP (codec := go_rlp) {| Hash := zero_Hash; Number := 15 |} [] = ([x0f], None).
Proof. reflexivity. Qed.

Example encode_number_1024 :
  EncodeRLP (codec := go_rlp) {| Hash := zero_Hash; Number := 1024 |} []
  = ([x82; x04; x00], None).
Proof. reflexivity. Qed.

Example encode_hash :
  EncodeRLP (codec := go_rlp) {| Hash := example_hash; Number := 0 |} []
  = (xa0 :: example_hash, None).
Proof. reflexivity. Qed.

Example decode_empty_input :
  DecodeRLP (codec := go_rlp) {| Hash := example_hash; Number := 7 |} (rlp.NewStream [])
  = ({| rlp.input := []; rlp.kind := Some (rlp.Byte, 0, Some rlp.EOF); rlp.byteval := x00 |},
     {| Hash := example_hash; Number := 7 |}, Some rlp.EOF).
Proof. reflexivity. Qed.

(** C1: a valid origin selector (the hash not the zero hash and the
    number zero, or the hash the zero hash with any number), encoded with
    [EncodeRLP] and decoded with [DecodeRLP] from a stream that starts
    with the bytes written, comes back exactly, whatever the decoded-into
    selector held and whatever follows in the stream, and the stream is
    left at the first byte after the encoding. *)
Theorem HashOrNumber_roundtrip (hn prior : HashOrNumber) (w rest : list byte) :
  length (Hash hn) = 32%nat ->
  0 <= Number hn < 2 ^ 64 ->
  length (Hash prior) = 32%nat ->
  (Hash hn <> zero_Hash /\ Number hn = 0) \/ Hash hn = zero_Hash ->
  exists (out : list byte) (bv : byte),
    EncodeRLP (codec := go_rlp) hn w = (w ++ out, None) /\
    DecodeRLP (codec := go_rlp) prior (rlp.NewStream (out ++ rest))
      = ({| rlp.input := rest; rlp.kind := None; rlp.byteval := bv |}, hn, None).
Proof.
  intros Hlen Hrange Hprior Hvalid.
  destruct hn as [h n]. cbn [Hash Number] in *.
  unfold EncodeRLP, DecodeRLP, rlp.NewStream. cbn [Hash Number].
  destruct (decide (h = zero_Hash)) as [Hz|Hnz].
  - destruct (rlp_roundtrip.uint64_encode_decode n (Number prior) rest x00 Hrange)
      as (s1 & k & size & bv & HK & Hsize & HD).
    exists (rlp.encode_uint64 n), bv. split; [reflexivity|].
    cbn [Stream_Kind Stream_Decode_uint64 go_rlp]. rewrite HK.
    destruct (size =? 32) eqn:E32; [apply Z.eqb_eq in E32; lia|].
    destruct (size <=? 8) eqn:E8; [|apply Z.leb_gt in E8; lia].
    rewrite HD, Hz. reflexivity.
  - destruct Hvalid as [[_ Hn]|Hz]; [|contradiction]. subst n.
    destruct (rlp_roundtrip.Hash_encode_decode h (Hash prior) rest x00 Hlen Hprior)
      as (s1 & HK & HD).
    exists (rlp.encode_byteArray h), x00. split; [reflexivity|].
    cbn [Stream_Kind Stream_Decode_Hash go_rlp]. rewrite HK.
    cbn [Z.eqb Pos.eqb]. rewrite HD. reflexivity.
Qed.

Lemma HashOrNumber_roundtrip_witness :
  (exists (out : list byte) (bv : byte),
      EncodeRLP (codec := go_rlp) {| Hash := zero_Hash; Number := 1024 |} [] = ([] ++ out, None) /\
      DecodeRLP (codec := go_rlp) {| Hash := example_hash; Number := 7 |}
        (rlp.NewStream (out ++ [x2a]))
      = ({| rlp.input := [x2a]; rlp.kind := None; rlp.byteval := bv |},
         {| Hash := zero_Hash; Number := 1024 |}, None)) /\
  (exists (out : list byte) (bv : byte),
      EncodeRLP (codec := go_rlp) {| Hash := example_hash; Number := 0 |} [] = ([] ++ out, None) /\
      DecodeRLP (codec := go_rlp) {| Hash := zero_Hash; Number := 7 |}
        (rlp.NewStream (out ++ []))
      = ({| rlp.input := []; rlp.kind := None; rlp.byteval := bv |},
         {| Hash := example_hash; Number := 0 |}, None)).
Proof.
  split.
  - apply (HashOrNumber_roundtrip {| Hash := zero_Hash; Number := 1024 |}
             {| Hash := example_hash; Number := 7 |} [] [x2a]).
    + reflexivity.
    + cbn [Number]. lia.
    + reflexivity.
    + right. reflexivity.
  - apply (HashOrNumber_roundtrip {| Hash := example_hash; Number := 0 |}
             {| Hash := zero_Hash; Number := 7 |} [] []).
    + reflexivity.
    + cbn [Number]. lia.
    + reflexivity.
    + left. split; [|reflexivity]. cbn [Hash]. vm_compute. discriminate.
Defined.

Lemma EncodeRLP_cases_witness :
  EncodeRLP (codec := go_rlp) {| Hash := zero_Hash; Number := 1024 |} []
    = rlp.Encode_uint64 [] 1024 /\
  EncodeRLP (codec := go_rlp) {| Hash := example_hash; Number := 7 |} []
    = ([], Some (errBothOrigin example_hash 7)) /\
  EncodeRLP (codec := go_rlp) {| Hash := example_hash; Number := 0 |} []
    = rlp.Encode_Hash [] example_hash.
Proof.
  split; [|split].
  - apply (EncodeRLP_cases (codec := go_rlp) {| Hash := zero_Hash; Number := 1024 |} []).
    reflexivity.
  - apply (EncodeRLP_cases (codec := go_rlp) {| Hash := example_hash; Number := 7 |} []).
    + cbn [Hash]. vm_compute. discriminate.
    + cbn [Number]. lia.
  - apply (EncodeRLP_cases (codec := go_rlp) {| Hash := example_hash; Number := 0 |} []).
    + cbn [Hash]. vm_compute. discriminate.
    + reflexivity.
Defined.

Lemma DecodeRLP_by_size_witness :
  DecodeRLP (codec := go_rlp) {| Hash := zero_Hash; Number := 7 |}
    (rlp.NewStream (xa0 :: example_hash))
  = (let '(s2, h, err) := rlp.Decode_byteArray example_hash_stream zero_Hash in
     (s2, {| Hash := h; Number := 0 |}, err)) /\
  DecodeRLP (codec := go_rlp) {| Hash := example_hash; Number := 7 |}
    (rlp.NewStream [x82; x04; x00])
  = (let '(s2, n, err) :=
       rlp.Decode_uint64
         {| rlp.input := [x04; x00]; rlp.kind := Some (rlp.String, 2, None);
            rlp.byteval := x00 |} 7 in
     (s2, {| Hash := zero_Hash; Number := n |}, err)) /\
  DecodeRLP (codec := go_rlp) {| Hash := example_hash; Number := 7 |}
    (rlp.NewStream [x89; x01])
  = ({| rlp.input := [x01]; rlp.kind := Some (rlp.String, 9, None);
        rlp.byteval := x00 |},
     {| Hash := example_hash; Number := 7 |},
     Some (errInvalidOriginSize 9)).
Proof.
  split; [|split].
  - apply (DecodeRLP_by_size (codec := go_rlp) {| Hash := zero_Hash; Number := 7 |}
             (rlp.NewStream (xa0 :: example_hash)) example_hash_stream rlp.String 32);
      reflexivity.
  - apply (DecodeRLP_by_size (codec := go_rlp) {| Hash := example_hash; Number := 7 |}
             (rlp.NewStream [x82; x04; x00]) _ rlp.String 2);
      [reflexivity | lia].
  - apply (DecodeRLP_by_size (codec := go_rlp) {| Hash := example_hash; Number := 7 |}
             (rlp.NewStream [x89; x01]) _ rlp.String 9);
      [reflexivity | lia | lia].
Defined.

Lemma DecodeRLP_union_invariant_witness :
  Hash {| Hash := zero_Hash; Number := 1024 |} = zero_Hash \/
  Number {| Hash := zero_Hash; Number := 1024 |} = 0.
Proof.
  apply (DecodeRLP_union_invariant (codec := go_rlp)
           {| Hash := example_hash; Number := 7 |}
           {| Hash := zero_Hash; Number := 1024 |}
           (rlp.NewStream [x82; x04; x00])
           {| rlp.input := []; rlp.kind := None; rlp.byteval := x00 |}).
  vm_compute. reflexivity.
Defined.

(** * Further properties *)

(** ** Message registry *)

(** X1: every supported version has a length, a version outside the list
    has none, every message code lies below the length of version 66, which
    is one above the largest code, and the codes that do not lie below
    the length of version 65 are the two rollup codes. *)
Theorem message_codes_within_protocol_lengths :
  Forall (fun v => is_Some (protocolLengths !! v)) ProtocolVersions /\
  (forall v : Z, v ∉ ProtocolVersions -> protocolLengths !! v = None /\ protocolLengths_at v = 0) /\
  Forall (fun c => 0 <= c < protocolLengths_at ETH66) message_codes /\
  protocolLengths_at ETH66 = GetOnePendingEtxsRollupMsg + 1 /\
  filter (fun c => protocolLengths_at ETH65 <= c) message_codes
    = [PendingEtxsRollupMsg; GetOnePendingEtxsRollupMsg].
Proof.
  split; [|split; [|split; [|split]]].
  - repeat constructor; eexists; reflexivity.
  - intros v Hv. unfold ProtocolVersions in Hv.
    apply not_elem_of_cons in Hv as [H66 Hv].
    apply not_elem_of_cons in Hv as [H65 _].
    assert (Hnone : protocolLengths !! v = None).
    { unfold protocolLengths.
      rewrite lookup_insert_ne by congruence.
      rewrite lookup_insert_ne by congruence.
      apply lookup_empty. }
    split; [exact Hnone|]. unfold protocolLengths_at. rewrite Hnone. reflexivity.
  - repeat constructor; vm_compute; congruence.
  - reflexivity.
  - reflexivity.
Qed.

(** X2: the display names are pairwise distinct, and a payload type has a
    [Name] method exactly when it has a [Kind] method. *)
Theorem Name_distinct_and_paired :
  (forall (p q : PacketType.t) (n : string), Name p = Some n -> Name q = Some n -> p = q) /\
  (forall p : PacketType.t, Name p = None <-> Kind p = None).
Proof.
  split.
  - intros p q n Hp Hq. rewrite <- Hq in Hp. clear Hq.
    destruct p; destruct q; try reflexivity; cbv in Hp; congruence.
  - intros p. destruct p; cbv; split; congruence.
Qed.

(** ** Announcement batches *)

(** X3: nothing is lost by unpacking an announcement batch: pairing the
    hashes with the numbers, position by position, gives the batch back. *)
Theorem NewBlockHashesPacket_Unpack_zip (p : NewBlockHashesPacket) :
  let '(hashes, numbers) := NewBlockHashesPacket_Unpack p in
  zip_with Build_NewBlockHashesEntry hashes numbers = p.
Proof.
  rewrite NewBlockHashesPacket_Unpack_fmap.
  induction p as [|[h n] p IH]; cbn; [reflexivity|].
  f_equal. exact IH.
Qed.

(** X4: unpacking the concatenation of two announcement batches gives
    the concatenation of their hashes and the concatenation of their
    numbers. *)
Theorem NewBlockHashesPacket_Unpack_app (p q : NewBlockHashesPacket) :
  NewBlockHashesPacket_Unpack (p ++ q)
  = ((NewBlockHashesPacket_Unpack p).1 ++ (NewBlockHashesPacket_Unpack q).1,
     (NewBlockHashesPacket_Unpack p).2 ++ (NewBlockHashesPacket_Unpack q).2).
Proof.
  rewrite !NewBlockHashesPacket_Unpack_fmap, !fmap_app. reflexivity.
Qed.

(** ** Body batches *)

Section BodiesUnpackFurther.
Context {Transaction Header BlockManifest : Type}.
Variable BlockManifest_zero : BlockManifest.

Abbreviation Body := (BlockBody Transaction Header BlockManifest).

Lemma bodies_nil_or_all (p : list (option Body)) :
  None ∈ p \/ exists bodies : list Body, p = Some <$> bodies.
Proof.
  induction p as [|[b|] p IH].
  - right. exists []. reflexivity.
  - destruct IH as [Hin|[bodies ->]].
    + left. apply elem_of_cons. right. exact Hin.
    + right. exists (b :: bodies). reflexivity.
  - left. apply elem_of_cons. left. reflexivity.
Qed.

Lemma Some_fmap_no_nil (bodies : list Body) : None ∉ (Some <$> bodies).
Proof.
  intros Hin. apply list_elem_of_fmap in Hin as (b & Hb & _). discriminate.
Qed.

(** X5: unpacking a batch of bodies fails exactly when the batch holds a
    [nil] pointer. *)
Theorem BlockBodiesPacket_Unpack_fails_iff_nil (p : list (option Body)) :
  BlockBodiesPacket_Unpack BlockManifest_zero p = None <-> None ∈ p.
Proof.
  split.
  - intros Hnone. destruct (bodies_nil_or_all p) as [Hin|[bodies ->]]; [exact Hin|].
    rewrite BlockBodiesPacket_Unpack_fmap in Hnone. discriminate.
  - apply BlockBodiesPacket_Unpack_nil.
Qed.

(** X6: nothing is lost by unpacking a batch of bodies: rebuilding a body
    from position [i] of the four sequences, for every [i], gives the
    batch back. *)
Theorem BlockBodiesPacket_Unpack_zip (bodies : list Body) :
  match BlockBodiesPacket_Unpack BlockManifest_zero (Some <$> bodies) with
  | Some (txset, uncleset, etxset, manifest) =>
      zip_with (fun '(txs, uncles) '(etxs, sub) =>
                  {| Transactions := txs; Uncles := uncles;
                     ExtTransactions := etxs; SubManifest := sub |})
        (zip txset uncleset) (zip etxset manifest)
      = bodies
  | None => False
  end.
Proof.
  rewrite BlockBodiesPacket_Unpack_fmap.
  induction bodies as [|[t u e m] bodies IH]; cbn; [reflexivity|].
  f_equal. exact IH.
Qed.

(** X7: unpacking the concatenation of two batches of bodies succeeds
    exactly when unpacking each of them does, and then gives the
    concatenation of each of the four sequences. *)
Theorem BlockBodiesPacket_Unpack_app (p q : list (option Body)) :
  BlockBodiesPacket_Unpack BlockManifest_zero (p ++ q)
  = match BlockBodiesPacket_Unpack BlockManifest_zero p,
          BlockBodiesPacket_Unpack BlockManifest_zero q with
    | Some (t1, u1, e1, m1), Some (t2, u2, e2, m2) =>
        Some (t1 ++ t2, u1 ++ u2, e1 ++ e2, m1 ++ m2)
    | _, _ => None
    end.
Proof.
  destruct (bodies_nil_or_all p) as [Hp|[bp ->]].
  - rewrite (BlockBodiesPacket_Unpack_nil _ p Hp).
    apply BlockBodiesPacket_Unpack_nil. apply elem_of_app. left. exact Hp.
  - destruct (bodies_nil_or_all q) as [Hq|[bq ->]].
    + rewrite (BlockBodiesPacket_Unpack_nil _ q Hq).
      rewrite BlockBodiesPacket_Unpack_fmap.
      apply BlockBodiesPacket_Unpack_nil. apply elem_of_app. right. exact Hq.
    + rewrite <- fmap_app, !BlockBodiesPacket_Unpack_fmap, !fmap_app. reflexivity.
Qed.
End BodiesUnpackFurther.

(** ** Origin selector, any codec *)

Section OriginCodecFurther.
Context {codec : Codec}.

(** X8: whatever the outcome of [DecodeRLP], success or failure, the
    selector is either left as it was or satisfies the union invariant. *)
Theorem DecodeRLP_untouched_or_valid (hn : HashOrNumber) (s : Stream) :
  let '(_, hn', _) := DecodeRLP hn s in
  hn' = hn \/ origin_valid hn'.
Proof.
  unfold DecodeRLP, origin_valid.
  destruct (Stream_Kind s) as [s1 [[k size] [e|]]]; [left; reflexivity|].
  destruct (size =? 32).
  - destruct (Stream_Decode_Hash s1 _) as [[s2 h] err]. right. right. reflexivity.
  - destruct (size <=? 8); [|left; reflexivity].
    destruct (Stream_Decode_uint64 s1 _) as [[s2 n] err]. right. left. reflexivity.
Qed.

(** X9: a selector that [DecodeRLP] has decoded can be encoded again:
    [EncodeRLP] does not answer with the ambiguous-origin error but hands
    the number, when the hash is the zero hash, or else the hash to the
    generic encoder. *)
Theorem EncodeRLP_after_DecodeRLP (hn hn' : HashOrNumber) (s s' : Stream) (w : Writer) :
  DecodeRLP hn s = (s', hn', None) ->
  EncodeRLP hn' w =
    if decide (Hash hn' = zero_Hash) then rlp_Encode_uint64 w (Number hn')
    else rlp_Encode_Hash w (Hash hn').
Proof.
  intros HD. unfold EncodeRLP.
  destruct (decide (Hash hn' = zero_Hash)) as [Hz|Hnz]; [reflexivity|].
  assert (Hn : Number hn' = 0).
  { revert HD. unfold DecodeRLP.
    destruct (Stream_Kind s) as [s1 [[k size] [e|]]]; [discriminate|].
    destruct (size =? 32).
    - destruct (Stream_Decode_Hash s1 _) as [[s2 h] err]. intros [= _ <- _]. reflexivity.
    - destruct (size <=? 8); [|discriminate].
      destruct (Stream_Decode_uint64 s1 _) as [[s2 n] err]. intros [= _ <- _].
      cbn [Hash] in Hnz. contradiction. }
  rewrite Hn. reflexivity.
Qed.
End OriginCodecFurther.

Lemma EncodeRLP_after_DecodeRLP_witness :
  EncodeRLP (codec := go_rlp) {| Hash := zero_Hash; Number := 1024 |} []
  = (if decide (Hash {| Hash := zero_Hash; Number := 1024 |} = zero_Hash)
     then rlp_Encode_uint64 (Codec := go_rlp) [] (Number {| Hash := zero_Hash; Number := 1024 |})
     else rlp_Encode_Hash (Codec := go_rlp) [] (Hash {| Hash := zero_Hash; Number := 1024 |})).
Proof.
  apply (EncodeRLP_after_DecodeRLP (codec := go_rlp)
           {| Hash := example_hash; Number := 7 |}
           {| Hash := zero_Hash; Number := 1024 |}
           (rlp.NewStream [x82; x04; x00])
           {| rlp.input := []; rlp.kind := None; rlp.byteval := x00 |} []).
  vm_compute. reflexivity.
Defined.

(** ** Origin selector, the codec of package [rlp] *)

Lemma byte_of_Z_mod (z : Z) : byte_of_Z (z mod 256) = byte_of_Z z.
Proof. unfold byte_of_Z. rewrite Z.mod_mod by lia. reflexivity. Qed.

(** [DecodeRLP] and [EncodeRLP] with the codec of package [rlp] put in. *)
Lemma DecodeRLP_go_rlp (hn : HashOrNumber) (s : rlp.Stream) :
  DecodeRLP (codec := go_rlp) hn s =
    let '(s1, (_, size, err)) := rlp.Stream_Kind s in
    match err with
    | Some e => (s1, hn, Some e)
    | None =>
        if size =? 32 then
          let '(s2, h, err) := rlp.Decode_byteArray s1 (Hash hn) in
          (s2, {| Hash := h; Number := 0 |}, err)
        else if size <=? 8 then
          let '(s2, n, err) := rlp.Decode_uint64 s1 (Number hn) in
          (s2, {| Hash := zero_Hash; Number := n |}, err)
        else (s1, hn, Some (errInvalidOriginSize size))
    end.
Proof. reflexivity. Qed.

Lemma EncodeRLP_go_rlp (hn : HashOrNumber) (w : list byte) :
  EncodeRLP (codec := go_rlp) hn w =
    if decide (Hash hn = zero_Hash) then (w ++ rlp.encode_uint64 (Number hn), None)
    else if negb (Number hn =? 0) then (w, Some (errBothOrigin (Hash hn) (Number hn)))
    else (w ++ rlp.encode_byteArray (Hash hn), None).
Proof. reflexivity. Qed.

Module rlp_canonical.
Import rlp rlp_facts rlp_roundtrip.

Lemma be_uint_cons (c : byte) (t : list byte) :
  be_uint (c :: t) = byte_to_Z c * 2 ^ (8 * Z.of_nat (length t)) + be_uint t.
Proof.
  assert (H : forall (l : list byte) (acc : Z),
             fold_left (fun acc b => acc * 256 + byte_to_Z b) l acc
             = acc * 2 ^ (8 * Z.of_nat (length l))
               + fold_left (fun acc b => acc * 256 + byte_to_Z b) l 0).
  { induction l as [|b l IH]; intros acc; cbn [fold_left length].
    - cbn. lia.
    - rewrite IH. rewrite (IH (0 * 256 + byte_to_Z b)).
      replace (8 * Z.of_nat (S (length l))) with (8 + 8 * Z.of_nat (length l)) by lia.
      rewrite Z.pow_add_r by lia. change (2 ^ 8) with 256. lia. }
  unfold be_uint. cbn [fold_left]. rewrite H. lia.
Qed.

Lemma be_uint_snoc (t : list byte) (c : byte) :
  be_uint (t ++ [c]) = be_uint t * 256 + byte_to_Z c.
Proof. unfold be_uint. rewrite fold_left_app. reflexivity. Qed.

Lemma be_uint_range (bs : list byte) :
  0 <= be_uint bs < 2 ^ (8 * Z.of_nat (length bs)).
Proof.
  induction bs as [|c t IH].
  - cbn. lia.
  - rewrite be_uint_cons. cbn [length].
    replace (8 * Z.of_nat (S (length t))) with (8 + 8 * Z.of_nat (length t)) by lia.
    rewrite Z.pow_add_r by lia. change (2 ^ 8) with 256.
    pose proof (byte_to_Z_range c). nia.
Qed.

Lemma be_bytes_be_uint (bs : list byte) :
  be_bytes (length bs) (be_uint bs) = bs.
Proof.
  induction bs as [|c t IH] using rev_ind; [reflexivity|].
  rewrite length_app, Nat.add_1_r, be_uint_snoc. cbn [length be_bytes].
  pose proof (byte_to_Z_range c) as Hc.
  rewrite Z.shiftr_div_pow2 by lia. change (2 ^ 8) with 256.
  replace ((be_uint t * 256 + byte_to_Z c) / 256) with (be_uint t)
    by (apply Z.div_unique with (r := byte_to_Z c); lia).
  rewrite IH. f_equal. f_equal.
  rewrite <- byte_of_Z_mod.
  replace ((be_uint t * 256 + byte_to_Z c) mod 256) with (byte_to_Z c)
    by (apply Z.mod_unique with (q := be_uint t); lia).
  apply byte_of_to_Z.
Qed.

Lemma intsize_unique (fuel k : nat) (v : Z) :
  (1 <= k <= fuel)%nat ->
  2 ^ (8 * (Z.of_nat k - 1)) <= v < 2 ^ (8 * Z.of_nat k) ->
  intsize fuel v = k.
Proof.
  intros Hk Hv.
  assert (Hpos : 0 < v).
  { pose proof (Z.pow_pos_nonneg 2 (8 * (Z.of_nat k - 1))). lia. }
  assert (Hfuel : v < 2 ^ (8 * Z.of_nat fuel)).
  { pose proof (Z.pow_le_mono_r 2 (8 * Z.of_nat k) (8 * Z.of_nat fuel)). lia. }
  destruct (intsize_spec fuel v (conj Hpos Hfuel)) as [Hk' Hv'].
  set (k' := intsize fuel v) in *.
  destruct (Nat.lt_trichotomy k k') as [Hlt|[Heq|Hgt]]; [|congruence|].
  - pose proof (Z.pow_le_mono_r 2 (8 * Z.of_nat k) (8 * (Z.of_nat k' - 1))). lia.
  - pose proof (Z.pow_le_mono_r 2 (8 * Z.of_nat k') (8 * (Z.of_nat k - 1))). lia.
Qed.

Lemma encode_byteArray_32 (h : list byte) :
  length h = 32%nat -> encode_byteArray h = xa0 :: h.
Proof.
  intros Hh. destruct h as [|b0 [|b1 t]]; try discriminate.
  unfold encode_byteArray. rewrite Hh. reflexivity.
Qed.

(** The encoding of a number of one byte or more, by its shortest
    big-endian form. *)
Lemma encode_uint64_be_uint (bs : list byte) :
  (1 <= length bs <= 8)%nat ->
  byte_to_Z (hd x00 bs) <> 0 ->
  128 <= be_uint bs ->
  encode_uint64 (be_uint bs) = byte_of_Z (0x80 + Z.of_nat (length bs)) :: bs.
Proof.
  intros Hlen Hhd Hge. unfold encode_uint64.
  destruct (be_uint bs =? 0) eqn:E0; [apply Z.eqb_eq in E0; lia|].
  destruct (be_uint bs <? 128) eqn:E1; [apply Z.ltb_lt in E1; lia|].
  assert (Hsize : intsize 8 (be_uint bs) = length bs).
  { apply intsize_unique; [lia|].
    destruct bs as [|c t]; [cbn in Hlen; lia|].
    cbn [hd] in Hhd. pose proof (be_uint_range (c :: t)) as Hr.
    pose proof (be_uint_range t) as Ht. rewrite be_uint_cons in *.
    cbn [length] in *. pose proof (byte_to_Z_range c).
    replace (8 * (Z.of_nat (S (length t)) - 1)) with (8 * Z.of_nat (length t)) by lia.
    split; [nia|lia]. }
  unfold putint. cbn zeta. rewrite Hsize, be_bytes_be_uint. reflexivity.
Qed.

Lemma Kind_caches (s s1 : rlp.Stream) (res : Kind * Z * option error) :
  rlp.Stream_Kind s = (s1, res) -> kind s1 = Some res.
Proof.
  unfold rlp.Stream_Kind. destruct (kind s) as [c|] eqn:E.
  - intros [= <- <-]. exact E.
  - destruct (readKind s) as [s2 c]. intros [= <- <-]. reflexivity.
Qed.

Lemma Kind_of_cached (s : rlp.Stream) (res : Kind * Z * option error) :
  kind s = Some res -> rlp.Stream_Kind s = (s, res).
Proof. intros E. unfold rlp.Stream_Kind. rewrite E. reflexivity. Qed.

Lemma Kind_fresh_cases (inp : list byte) (bv : byte) (s1 : rlp.Stream)
    (k : Kind) (size : Z) :
  rlp.Stream_Kind {| input := inp; kind := None; byteval := bv |} = (s1, (k, size, None)) ->
  (exists b r, inp = b :: r /\ byte_to_Z b < 0x80 /\ k = Byte /\ size = 0 /\
               s1 = {| input := r; kind := Some (Byte, 0, None); byteval := b |}) \/
  (exists b r, inp = b :: r /\ 0x80 <= byte_to_Z b < 0xB8 /\ k = String /\
               size = byte_to_Z b - 0x80 /\
               s1 = {| input := r; kind := Some (String, size, None); byteval := x00 |}) \/
  k = List \/ 56 <= size.
Proof.
  unfold rlp.Stream_Kind, readKind, readByte. cbn [input kind byteval].
  destruct inp as [|b r]; [discriminate|].
  cbn [input kind byteval].
  destruct (byte_to_Z b <? 128) eqn:E1.
  { apply Z.ltb_lt in E1. intros [= <- <- <-]. left. exists b, r.
    rewrite byte_of_to_Z. repeat split; try reflexivity; lia. }
  apply Z.ltb_ge in E1.
  destruct (byte_to_Z b <? 184) eqn:E2.
  { apply Z.ltb_lt in E2. intros [= <- <- <-]. right. left. exists b, r.
    repeat split; try reflexivity; lia. }
  destruct (byte_to_Z b <? 192) eqn:E3.
  { destruct (readUint _ _) as [[s2 sz] [e|]]; [discriminate|].
    destruct (sz <? 56) eqn:E56; [discriminate|].
    apply Z.ltb_ge in E56. intros [= <- <- <-]. right. right. right. exact E56. }
  destruct (byte_to_Z b <? 248) eqn:E4.
  { intros [= <- <- <-]. right. right. left. reflexivity. }
  destruct (readUint _ _) as [[s2 sz] [e|]]; [discriminate|].
  destruct (sz <? 56) eqn:E56; [discriminate|].
  intros [= <- <- <-]. right. right. left. reflexivity.
Qed.

(** What a successful [DecodeRLP] on a fresh stream has read and
    produced. *)
Lemma DecodeRLP_success_cases (prior hn' : HashOrNumber) (inp : list byte)
    (s' : rlp.Stream) :
  length (Hash prior) = 32%nat ->
  DecodeRLP (codec := go_rlp) prior (rlp.NewStream inp) = (s', hn', None) ->
  (exists h : list byte,
      length h = 32%nat /\ inp = xa0 :: h ++ input s' /\
      hn' = {| Hash := h; Number := 0 |}) \/
  (exists n : Z,
      0 <= n < 2 ^ 64 /\ inp = encode_uint64 n ++ input s' /\
      hn' = {| Hash := zero_Hash; Number := n |}).
Proof.
  intros Hprior HD. rewrite DecodeRLP_go_rlp in HD. unfold rlp.NewStream in HD.
  destruct (rlp.Stream_Kind _) as [s1 [[k size] [e|]]] eqn:HK; [discriminate|].
  pose proof (Kind_caches _ _ _ HK) as Hc.
  apply Kind_fresh_cases in HK.
  destruct HK as [(b & r & -> & Hb & -> & -> & ->)
                 |[(b & r & -> & Hb & -> & Hsz & ->)|[->|Hbig]]].
  - (* a single byte below 0x80 *)
    right. cbn [Z.eqb Z.leb Z.compare Hash Number] in HD.
    unfold Decode_uint64, Stream_uint64 in HD. rewrite Kind_cached in HD.
    cbn [byteval input kind] in HD.
    destruct (byte_to_Z b =? 0) eqn:E0; [discriminate|].
    apply Z.eqb_neq in E0. injection HD as <- <-.
    pose proof (byte_to_Z_range b).
    exists (byte_to_Z b). split; [lia|]. split; [|reflexivity].
    unfold encode_uint64. apply Z.eqb_neq in E0. rewrite E0.
    destruct (byte_to_Z b <? 128) eqn:E1; [|apply Z.ltb_ge in E1; lia].
    rewrite byte_of_to_Z. reflexivity.
  - (* a string of up to 55 bytes *)
    assert (Hbyte : b = byte_of_Z (0x80 + size)).
    { replace (0x80 + size) with (byte_to_Z b) by lia. symmetry. apply byte_of_to_Z. }
    destruct (size =? 32) eqn:E32.
    + left. apply Z.eqb_eq in E32. rewrite E32 in Hsz, HD, Hbyte. clear Hc E32.
      cbn [Hash Number] in HD.
      unfold Decode_byteArray in HD. rewrite Kind_cached, Hprior in HD.
      change (Z.of_nat 32 <? 32) with false in HD.
      change (32 <? Z.of_nat 32) with false in HD.
      cbn match in HD. unfold readFull in HD. cbn [input kind byteval] in HD.
      destruct (length r <? 32)%nat eqn:El; [discriminate|].
      apply Nat.ltb_ge in El.
      rewrite length_take_le, drop_ge, app_nil_r in HD by lia.
      cbn [Z.eqb Pos.eqb andb] in HD. injection HD as <- <-.
      exists (take 32 r). split; [apply length_take_le; lia|].
      split; [|reflexivity].
      cbn [input]. rewrite take_drop. rewrite Hbyte. reflexivity.
    + right. destruct (size <=? 8) eqn:E8; [|discriminate].
      apply Z.leb_le in E8. cbn [Hash Number] in HD.
      unfold Decode_uint64, Stream_uint64 in HD. rewrite Kind_cached in HD.
      destruct (8 <? size) eqn:E9; [apply Z.ltb_lt in E9; lia|].
      unfold readUint in HD.
      destruct (size =? 0) eqn:E0.
      { apply Z.eqb_eq in E0. clear Hc E8 E9 E32. rewrite E0 in Hsz, HD, Hbyte. cbn [input kind byteval Z.ltb Z.compare andb] in HD.
        injection HD as <- <-. exists 0. split; [lia|]. split; [|reflexivity].
        rewrite Hbyte. reflexivity. }
      apply Z.eqb_neq in E0.
      destruct (size =? 1) eqn:E1.
      { apply Z.eqb_eq in E1. clear Hc E8 E9 E32 E0. rewrite E1 in Hsz, HD, Hbyte. unfold readByte in HD.
        cbn [input kind byteval] in HD.
        destruct r as [|c r']; [discriminate|].
        cbn [Z.ltb Z.compare andb] in HD.
        destruct (byte_to_Z c <? 128) eqn:Ec; [discriminate|].
        apply Z.ltb_ge in Ec. injection HD as <- <-.
        pose proof (byte_to_Z_range c).
        assert (Hbe : be_uint [c] = byte_to_Z c) by (unfold be_uint; cbn; lia).
        exists (byte_to_Z c). split; [lia|]. split; [|reflexivity].
        rewrite <- Hbe.
        rewrite encode_uint64_be_uint; [rewrite Hbyte; reflexivity|cbn; lia|cbn [hd]; lia|lia]. }
      apply Z.eqb_neq in E1.
      unfold readFull in HD. cbn [input kind byteval] in HD.
      destruct (length r <? Z.to_nat size)%nat eqn:El; [discriminate|].
      apply Nat.ltb_ge in El.
      destruct (byte_to_Z (hd x00 (take (Z.to_nat size) r)) =? 0) eqn:Eh; [discriminate|].
      apply Z.eqb_neq in Eh.
      destruct (0 <? size) eqn:Ep; [|apply Z.ltb_ge in Ep; lia].
      destruct (be_uint (take (Z.to_nat size) r) <? 128) eqn:Ev; [discriminate|].
      apply Z.ltb_ge in Ev. cbn [andb] in HD. injection HD as <- <-.
      set (buf := take (Z.to_nat size) r) in *.
      assert (Hlen : length buf = Z.to_nat size) by (apply length_take_le; lia).
      exists (be_uint buf). split; [|split; [|reflexivity]].
      * pose proof (be_uint_range buf) as Hr.
        pose proof (Z.pow_le_mono_r 2 (8 * Z.of_nat (length buf)) 64). lia.
      * rewrite encode_uint64_be_uint by (try lia; assumption).
        cbn [input app]. unfold buf at 2. rewrite take_drop.
        rewrite Hbyte, Hlen. f_equal. f_equal. lia.
  - (* a list *)
    apply Kind_of_cached in Hc.
    destruct (size =? 32).
    + unfold Decode_byteArray in HD. rewrite Hc in HD. discriminate.
    + destruct (size <=? 8); [|discriminate].
      unfold Decode_uint64, Stream_uint64 in HD. rewrite Hc in HD. discriminate.
  - destruct (size =? 32) eqn:E32; [apply Z.eqb_eq in E32; lia|].
    destruct (size <=? 8) eqn:E8; [apply Z.leb_le in E8; lia|]. discriminate.
Qed.

Lemma Kind_short_list (size : Z) (body : list byte) (bv : byte) :
  0 <= size < 56 ->
  rlp.Stream_Kind
    {| input := byte_of_Z (0xC0 + size) :: body; kind := None; byteval := bv |}
  = ({| input := body; kind := Some (List, size, None); byteval := x00 |},
     (List, size, None)).
Proof.
  intros Hs. unfold rlp.Stream_Kind, readKind, readByte. cbn [input kind byteval].
  rewrite byte_to_of_Z_small by lia.
  destruct (192 + size <? 128) eqn:E1; [apply Z.ltb_lt in E1; lia|].
  destruct (192 + size <? 184) eqn:E2; [apply Z.ltb_lt in E2; lia|].
  destruct (192 + size <? 192) eqn:E3; [apply Z.ltb_lt in E3; lia|].
  destruct (192 + size <? 248) eqn:E4; [|apply Z.ltb_ge in E4; lia].
  cbn [input kind byteval]. repeat f_equal; lia.
Qed.

Lemma length_encode_uint64 (n : Z) :
  0 <= n < 2 ^ 64 -> (1 <= length (encode_uint64 n) <= 9)%nat.
Proof.
  intros Hn. unfold encode_uint64.
  destruct (n =? 0) eqn:E0; [cbn; lia|].
  destruct (n <? 128) eqn:E1; [cbn; lia|].
  apply Z.eqb_neq in E0.
  destruct (intsize_spec 8 n) as [Hk _]; [change (2 ^ (8 * Z.of_nat 8)) with (2 ^ 64); lia|].
  unfold putint. cbn zeta. cbn [length]. rewrite length_be_bytes. lia.
Qed.

End rlp_canonical.

(** The round trip through the codec of package [rlp], with the stream
    left behind. *)
Lemma DecodeRLP_of_EncodeRLP (hn prior : HashOrNumber) (w rest : list byte) :
  length (Hash hn) = 32%nat ->
  0 <= Number hn < 2 ^ 64 ->
  length (Hash prior) = 32%nat ->
  origin_valid hn ->
  exists (out : list byte) (bv : byte),
    EncodeRLP (codec := go_rlp) hn w = (w ++ out, None) /\
    DecodeRLP (codec := go_rlp) prior (rlp.NewStream (out ++ rest))
      = ({| rlp.input := rest; rlp.kind := None; rlp.byteval := bv |}, hn, None).
Proof.
  intros Hlen Hrange Hprior Hvalid.
  destruct hn as [h n]. unfold origin_valid in Hvalid. cbn [Hash Number] in *.
  rewrite EncodeRLP_go_rlp. cbn [Hash Number].
  destruct (decide (h = zero_Hash)) as [Hz|Hnz].
  - destruct (rlp_roundtrip.uint64_encode_decode n (Number prior) rest x00 Hrange)
      as (s1 & k & size & bv & HK & Hsize & HD).
    exists (rlp.encode_uint64 n), bv. split; [reflexivity|].
    rewrite DecodeRLP_go_rlp. unfold rlp.NewStream. rewrite HK.
    destruct (size =? 32) eqn:E32; [apply Z.eqb_eq in E32; lia|].
    destruct (size <=? 8) eqn:E8; [|apply Z.leb_gt in E8; lia].
    rewrite HD, Hz. reflexivity.
  - destruct Hvalid as [Hz|Hn]; [contradiction|]. subst n.
    destruct (rlp_roundtrip.Hash_encode_decode h (Hash prior) rest x00 Hlen Hprior)
      as (s1 & HK & HD).
    exists (rlp.encode_byteArray h), x00. split; [reflexivity|].
    rewrite DecodeRLP_go_rlp. unfold rlp.NewStream. rewrite HK.
    cbn [Z.eqb Pos.eqb]. rewrite HD. reflexivity.
Qed.

(** X10: whatever [DecodeRLP] accepts is an encoding: on success the
    bytes it has consumed are the byte [0xa0] followed by the 32 bytes of
    the hash it returns, with the number zero, or they are the generic
    encoding of the number it returns, which fits 64 bits, with the zero
    hash; the rest of the input is left in the stream. *)
Theorem DecodeRLP_accepts_encodings_only (prior hn' : HashOrNumber)
    (inp : list byte) (s' : rlp.Stream) :
  length (Hash prior) = 32%nat ->
  DecodeRLP (codec := go_rlp) prior (rlp.NewStream inp) = (s', hn', None) ->
  (exists h : list byte,
      length h = 32%nat /\ inp = xa0 :: h ++ rlp.input s' /\
      hn' = {| Hash := h; Number := 0 |}) \/
  (exists n : Z,
      0 <= n < 2 ^ 64 /\ inp = rlp.encode_uint64 n ++ rlp.input s' /\
      hn' = {| Hash := zero_Hash; Number := n |}).
Proof. apply rlp_canonical.DecodeRLP_success_cases. Qed.

Lemma DecodeRLP_accepts_encodings_only_witness :
  (exists h : list byte,
      length h = 32%nat /\
      [x82; x04; x00; x2a]
        = xa0 :: h ++ rlp.input {| rlp.input := [x2a]; rlp.kind := None; rlp.byteval := x00 |} /\
      {| Hash := zero_Hash; Number := 1024 |} = {| Hash := h; Number := 0 |}) \/
  (exists n : Z,
      0 <= n < 2 ^ 64 /\
      [x82; x04; x00; x2a]
        = rlp.encode_uint64 n
          ++ rlp.input {| rlp.input := [x2a]; rlp.kind := None; rlp.byteval := x00 |} /\
      {| Hash := zero_Hash; Number := 1024 |} = {| Hash := zero_Hash; Number := n |}).
Proof.
  apply (DecodeRLP_accepts_encodings_only {| Hash := example_hash; Number := 7 |}).
  - reflexivity.
  - vm_compute. reflexivity.
Defined.

(** X11: decoding and encoding again gives back the bytes consumed, with
    one exception: the 33-byte form of the zero hash is accepted, decodes
    to the selector of number zero and comes back as the single byte
    [0x80]. *)
Theorem EncodeRLP_of_DecodeRLP (prior hn' : HashOrNumber)
    (inp : list byte) (s' : rlp.Stream) :
  length (Hash prior) = 32%nat ->
  DecodeRLP (codec := go_rlp) prior (rlp.NewStream inp) = (s', hn', None) ->
  exists pre : list byte,
    inp = pre ++ rlp.input s' /\
    (EncodeRLP (codec := go_rlp) hn' [] = (pre, None) \/
     (pre = xa0 :: zero_Hash /\
      hn' = {| Hash := zero_Hash; Number := 0 |} /\
      EncodeRLP (codec := go_rlp) hn' [] = ([x80], None))).
Proof.
  intros Hprior HD.
  destruct (rlp_canonical.DecodeRLP_success_cases _ _ _ _ Hprior HD)
    as [(h & Hh & -> & ->)|(n & Hn & -> & ->)].
  - exists (xa0 :: h). split; [reflexivity|].
    rewrite EncodeRLP_go_rlp. cbn [Hash Number].
    destruct (decide (h = zero_Hash)) as [->|Hnz].
    + right. repeat split; reflexivity.
    + left. rewrite decide_False by exact Hnz.
      cbn [Z.eqb negb app]. rewrite rlp_canonical.encode_byteArray_32 by exact Hh.
      reflexivity.
  - exists (rlp.encode_uint64 n). split; [reflexivity|]. left.
    rewrite EncodeRLP_go_rlp. cbn [Hash Number].
    rewrite decide_True by reflexivity. reflexivity.
Qed.

Lemma EncodeRLP_of_DecodeRLP_witness :
  exists pre : list byte,
    xa0 :: zero_Hash ++ [x2a]
      = pre ++ rlp.input {| rlp.input := [x2a]; rlp.kind := None; rlp.byteval := x00 |} /\
    (EncodeRLP (codec := go_rlp) {| Hash := zero_Hash; Number := 0 |} [] = (pre, None) \/
     (pre = xa0 :: zero_Hash /\
      {| Hash := zero_Hash; Number := 0 |} = {| Hash := zero_Hash; Number := 0 |} /\
      EncodeRLP (codec := go_rlp) {| Hash := zero_Hash; Number := 0 |} [] = ([x80], None))).
Proof.
  apply (EncodeRLP_of_DecodeRLP {| Hash := example_hash; Number := 7 |}).
  - reflexivity.
  - vm_compute. reflexivity.
Defined.

(** X12: the encoding tells valid selectors apart: two valid selectors
    that [EncodeRLP] writes as the same bytes are the same selector. *)
Theorem EncodeRLP_injective (hn1 hn2 : HashOrNumber) (w : list byte) :
  length (Hash hn1) = 32%nat -> 0 <= Number hn1 < 2 ^ 64 -> origin_valid hn1 ->
  length (Hash hn2) = 32%nat -> 0 <= Number hn2 < 2 ^ 64 -> origin_valid hn2 ->
  EncodeRLP (codec := go_rlp) hn1 w = EncodeRLP (codec := go_rlp) hn2 w ->
  hn1 = hn2.
Proof.
  intros Hl1 Hr1 Hv1 Hl2 Hr2 Hv2 Heq.
  destruct (DecodeRLP_of_EncodeRLP hn1 hn1 w [] Hl1 Hr1 Hl1 Hv1)
    as (out1 & bv1 & HE1 & HD1).
  destruct (DecodeRLP_of_EncodeRLP hn2 hn1 w [] Hl2 Hr2 Hl1 Hv2)
    as (out2 & bv2 & HE2 & HD2).
  rewrite HE1, HE2 in Heq. injection Heq as Heq.
  apply app_inv_head in Heq. subst out2.
  rewrite HD1 in HD2. congruence.
Qed.

Lemma EncodeRLP_injective_witness :
  {| Hash := zero_Hash; Number := 1024 |} = {| Hash := zero_Hash; Number := 1024 |}.
Proof.
  apply (EncodeRLP_injective {| Hash := zero_Hash; Number := 1024 |}
           {| Hash := zero_Hash; Number := 1024 |} []).
  - reflexivity.
  - cbn [Number]. lia.
  - left. reflexivity.
  - reflexivity.
  - cbn [Number]. lia.
  - left. reflexivity.
  - reflexivity.
Defined.

(** X13: a number selector is written as 1 to 9 bytes and a hash
    selector as exactly 33 bytes, appended to what the writer holds. *)
Theorem EncodeRLP_length (hn : HashOrNumber) (w : list byte) :
  length (Hash hn) = 32%nat -> 0 <= Number hn < 2 ^ 64 -> origin_valid hn ->
  exists out : list byte,
    EncodeRLP (codec := go_rlp) hn w = (w ++ out, None) /\
    (Hash hn = zero_Hash -> (1 <= length out <= 9)%nat) /\
    (Hash hn <> zero_Hash -> length out = 33%nat).
Proof.
  intros Hlen Hrange Hvalid. rewrite EncodeRLP_go_rlp.
  destruct (decide (Hash hn = zero_Hash)) as [Hz|Hnz].
  - eexists. split; [reflexivity|]. split; [|contradiction].
    intros _. apply rlp_canonical.length_encode_uint64. exact Hrange.
  - destruct Hvalid as [Hz|Hn]; [contradiction|]. rewrite Hn. cbn [Z.eqb negb].
    eexists. split; [reflexivity|]. split; [contradiction|].
    intros _. rewrite rlp_canonical.encode_byteArray_32 by exact Hlen.
    cbn [length]. rewrite Hlen. reflexivity.
Qed.

Lemma EncodeRLP_length_witness :
  exists out : list byte,
    EncodeRLP (codec := go_rlp) {| Hash := example_hash; Number := 0 |} [x2a]
      = ([x2a] ++ out, None) /\
    (Hash {| Hash := example_hash; Number := 0 |} = zero_Hash -> (1 <= length out <= 9)%nat) /\
    (Hash {| Hash := example_hash; Number := 0 |} <> zero_Hash -> length out = 33%nat).
Proof.
  apply (EncodeRLP_length {| Hash := example_hash; Number := 0 |} [x2a]).
  - reflexivity.
  - cbn [Number]. lia.
  - right. reflexivity.
Defined.

(** X14: a string of 9 to 31 or of 33 to 55 bytes that the input holds
    in full is refused on its size tag: none of its bytes is read, the
    selector is left as it was, and the error names the size. *)
Theorem DecodeRLP_rejects_other_sizes (prior : HashOrNumber) (size : Z)
    (body : list byte) :
  8 < size < 56 -> size <> 32 ->
  size <= Z.of_nat (length body) ->
  DecodeRLP (codec := go_rlp) prior (rlp.NewStream (byte_of_Z (0x80 + size) :: body))
  = ({| rlp.input := body; rlp.kind := Some (rlp.String, size, None);
        rlp.byteval := x00 |},
     prior, Some (errInvalidOriginSize size)).
Proof.
  intros Hsize Hne _. rewrite DecodeRLP_go_rlp. unfold rlp.NewStream.
  rewrite rlp_roundtrip.Kind_short_string by lia.
  destruct (size =? 32) eqn:E32; [apply Z.eqb_eq in E32; lia|].
  destruct (size <=? 8) eqn:E8; [apply Z.leb_le in E8; lia|].
  reflexivity.
Qed.

Lemma DecodeRLP_rejects_other_sizes_witness :
  DecodeRLP (codec := go_rlp) {| Hash := example_hash; Number := 7 |}
    (rlp.NewStream (byte_of_Z (0x80 + 9) :: repeat x01 9))
  = ({| rlp.input := repeat x01 9; rlp.kind := Some (rlp.String, 9, None);
        rlp.byteval := x00 |},
     {| Hash := example_hash; Number := 7 |}, Some (errInvalidOriginSize 9)).
Proof.
  apply (DecodeRLP_rejects_other_sizes {| Hash := example_hash; Number := 7 |} 9
           (repeat x01 9)).
  - lia.
  - lia.
  - vm_compute. discriminate.
Defined.

(** X15: only the size is looked at before a field is chosen, not the
    kind: a list of at most 8 bytes, held in full by the input, is handed
    to the number decoder and a list of 32 bytes to the hash decoder; the
    call fails, and by then the other field of the selector has been
    cleared. *)
Theorem DecodeRLP_list_clears_field (prior : HashOrNumber) (size : Z)
    (body : list byte) :
  size <= Z.of_nat (length body) ->
  (0 <= size <= 8 ->
   exists (s1 : rlp.Stream) (e : error),
     DecodeRLP (codec := go_rlp) prior (rlp.NewStream (byte_of_Z (0xC0 + size) :: body))
     = (s1, {| Hash := zero_Hash; Number := Number prior |}, Some e)) /\
  (size = 32 ->
   exists (s1 : rlp.Stream) (e : error),
     DecodeRLP (codec := go_rlp) prior (rlp.NewStream (byte_of_Z (0xC0 + size) :: body))
     = (s1, {| Hash := Hash prior; Number := 0 |}, Some e)).
Proof.
  intros _. split; intros Hsize; rewrite DecodeRLP_go_rlp; unfold rlp.NewStream;
    rewrite rlp_canonical.Kind_short_list by lia.
  - destruct (size =? 32) eqn:E32; [apply Z.eqb_eq in E32; lia|].
    destruct (size <=? 8) eqn:E8; [|apply Z.leb_gt in E8; lia].
    eexists _, _. reflexivity.
  - subst size. eexists _, _. reflexivity.
Qed.

Lemma DecodeRLP_list_clears_field_witness :
  (exists (s1 : rlp.Stream) (e : error),
     DecodeRLP (codec := go_rlp) {| Hash := example_hash; Number := 7 |}
       (rlp.NewStream (byte_of_Z (0xC0 + 0) :: []))
     = (s1, {| Hash := zero_Hash; Number := Number {| Hash := example_hash; Number := 7 |} |},
        Some e)) /\
  (exists (s1 : rlp.Stream) (e : error),
     DecodeRLP (codec := go_rlp) {| Hash := example_hash; Number := 7 |}
       (rlp.NewStream (byte_of_Z (0xC0 + 32) :: example_hash))
     = (s1, {| Hash := Hash {| Hash := example_hash; Number := 7 |}; Number := 0 |},
        Some e)).
Proof.
  split.
  - apply (DecodeRLP_list_clears_field {| Hash := example_hash; Number := 7 |} 0 []).
    + vm_compute. discriminate.
    + lia.
  - apply (DecodeRLP_list_clears_field {| Hash := example_hash; Number := 7 |} 32
             example_hash).
    + vm_compute. discriminate.
    + reflexivity.
Defined.

Example decode_zero_hash_form :
  DecodeRLP (codec := go_rlp) {| Hash := example_hash; Number := 7 |}
    (rlp.NewStream (xa0 :: zero_Hash))
  = ({| rlp.input := []; rlp.kind := None; rlp.byteval := x00 |},
     {| Hash := zero_Hash; Number := 0 |}, None).
Proof. reflexivity. Qed.

(** ** Envelopes of eth/66 on the wire *)

Module rlp_list_facts.
Import rlp rlp_facts rlp_roundtrip rlp_canonical rlp_list.

Lemma Kind_list_header (size : Z) (body : list byte) (bv : byte) :
  0 <= size < 2 ^ 64 ->
  rlp.Stream_Kind
    {| input := encodeListHeader size ++ body; kind := None; byteval := bv |}
  = ({| input := body; kind := Some (List, size, None); byteval := x00 |},
     (List, size, None)).
Proof.
  intros Hsize. unfold encodeListHeader.
  destruct (size <? 56) eqn:E56.
  - apply Z.ltb_lt in E56. cbn [app]. apply Kind_short_list. lia.
  - apply Z.ltb_ge in E56.
    destruct (intsize_spec 8 size) as [Hk Hb];
      [change (2 ^ (8 * Z.of_nat 8)) with (2 ^ 64); lia|].
    unfold putint. set (k := intsize 8 size) in *.
    cbn zeta. rewrite length_be_bytes. cbn [app].
    unfold rlp.Stream_Kind, readKind, readByte. cbn [input kind byteval].
    rewrite byte_to_of_Z_small by lia.
    destruct (247 + Z.of_nat k <? 128) eqn:E1; [apply Z.ltb_lt in E1; lia|].
    destruct (247 + Z.of_nat k <? 184) eqn:E2; [apply Z.ltb_lt in E2; lia|].
    destruct (247 + Z.of_nat k <? 192) eqn:E3; [apply Z.ltb_lt in E3; lia|].
    destruct (247 + Z.of_nat k <? 248) eqn:E4; [apply Z.ltb_lt in E4; lia|].
    replace (247 + Z.of_nat k - 247) with (Z.of_nat k) by lia.
    rewrite readUint_be_bytes by (try lia; exact Hb).
    destruct (size <? 56) eqn:E; [apply Z.ltb_lt in E; lia|].
    reflexivity.
Qed.

Lemma Stream_List_encode_struct (fields rest : list byte) (bv : byte) :
  Z.of_nat (length fields) < 2 ^ 64 ->
  Stream_List {| input := encode_struct fields ++ rest; kind := None; byteval := bv |}
  = (rlp.NewStream fields,
     {| input := rest; kind := None; byteval := x00 |}, None).
Proof.
  intros Hlen. unfold Stream_List, encode_struct. rewrite <- app_assoc.
  rewrite Kind_list_header by lia. cbn [input byteval]. rewrite Nat2Z.id.
  destruct (length (fields ++ rest) <? length fields)%nat eqn:El.
  { apply Nat.ltb_lt in El. rewrite length_app in El. lia. }
  rewrite take_app_length, drop_app_length. reflexivity.
Qed.

Lemma decode_struct_encode_struct {A : Type}
    (dec : rlp.Stream -> A -> rlp.Stream * A * option error)
    (fields rest : list byte) (a a' : A) (bv bv' : byte) :
  Z.of_nat (length fields) < 2 ^ 64 ->
  dec (rlp.NewStream fields) a
    = ({| input := []; kind := None; byteval := bv' |}, a', None) ->
  decode_struct dec
    {| input := encode_struct fields ++ rest; kind := None; byteval := bv |} a
  = ({| input := rest; kind := None; byteval := x00 |}, a', None).
Proof.
  intros Hlen Hdec. unfold decode_struct.
  rewrite Stream_List_encode_struct by exact Hlen. rewrite Hdec. reflexivity.
Qed.

Lemma Decode_uint64_after_Kind (s s1 : rlp.Stream) (res : Kind * Z * option error)
    (old : Z) :
  rlp.Stream_Kind s = (s1, res) -> Decode_uint64 s old = Decode_uint64 s1 old.
Proof.
  intros HK. unfold Decode_uint64, Stream_uint64.
  rewrite HK, (Kind_of_cached s1 res (Kind_caches _ _ _ HK)). reflexivity.
Qed.

Lemma Decode_byteArray_after_Kind (s s1 : rlp.Stream) (res : Kind * Z * option error)
    (old : list byte) :
  rlp.Stream_Kind s = (s1, res) -> Decode_byteArray s old = Decode_byteArray s1 old.
Proof.
  intros HK. unfold Decode_byteArray.
  rewrite HK, (Kind_of_cached s1 res (Kind_caches _ _ _ HK)). reflexivity.
Qed.

Lemma Decode_uint64_encode_uint64 (n old : Z) (rest : list byte) (bv0 : byte) :
  0 <= n < 2 ^ 64 ->
  exists bv : byte,
    Decode_uint64 {| input := encode_uint64 n ++ rest; kind := None; byteval := bv0 |} old
    = ({| input := rest; kind := None; byteval := bv |}, n, None).
Proof.
  intros Hn.
  destruct (uint64_encode_decode n old rest bv0 Hn) as (s1 & k & size & bv & HK & _ & HD).
  exists bv. rewrite (Decode_uint64_after_Kind _ _ _ old HK). exact HD.
Qed.

Lemma Decode_byteArray_encode_byteArray (h old rest : list byte) (bv0 : byte) :
  length h = 32%nat -> length old = 32%nat ->
  Decode_byteArray
    {| input := encode_byteArray h ++ rest; kind := None; byteval := bv0 |} old
  = ({| input := rest; kind := None; byteval := x00 |}, h, None).
Proof.
  intros Hh Hold.
  destruct (Hash_encode_decode h old rest bv0 Hh Hold) as (s1 & HK & HD).
  rewrite (Decode_byteArray_after_Kind _ _ _ old HK). exact HD.
Qed.

End rlp_list_facts.

(** A [GetBlockPacket] comes back from its own encoding. *)
Lemma decode_encode_GetBlockPacket (p prior : GetBlockPacket) (rest : list byte)
    (bv : byte) :
  length (GetBlock_Hash p) = 32%nat ->
  length (GetBlock_Hash prior) = 32%nat ->
  decode_GetBlockPacket
    {| rlp.input := encode_GetBlockPacket p ++ rest; rlp.kind := None;
       rlp.byteval := bv |} prior
  = ({| rlp.input := rest; rlp.kind := None; rlp.byteval := x00 |}, p, None).
Proof.
  intros Hp Hprior. destruct p as [h]. cbn [GetBlock_Hash] in *.
  unfold decode_GetBlockPacket, encode_GetBlockPacket. cbn [GetBlock_Hash].
  apply (rlp_list_facts.decode_struct_encode_struct _ _ _ _ _ _ x00).
  - rewrite rlp_canonical.encode_byteArray_32 by exact Hp.
    cbn [length]. rewrite Hp. vm_compute. reflexivity.
  - unfold rlp.NewStream.
    rewrite <- (app_nil_r (rlp.encode_byteArray h)).
    rewrite rlp_list_facts.Decode_byteArray_encode_byteArray by assumption.
    reflexivity.
Qed.

(** C6: wrapping a payload with a request identifier [R] adds the
    identifier as one leading field and leaves the payload as it is: the
    envelope holds [R] and the payload; on the wire its list is the
    encoding of [R] followed by the encoding of the payload alone, byte
    for byte; and decoding the envelope gives back [R] and the payload,
    whatever the decoded-into envelope held and whatever follows on the
    stream, as long as the payload's own decoder reads the payload back
    from the payload's own encoding. *)
Theorem envelope_adds_leading_identifier (P : Type)
    (encP : P -> list byte)
    (decP : rlp.Stream -> P -> rlp.Stream * P * option error)
    (R : Z) (payload : P) (prior : Packet66 P) (rest : list byte) :
  0 <= R < 2 ^ 64 ->
  Z.of_nat (length (rlp.encode_uint64 R ++ encP payload)) < 2 ^ 64 ->
  (forall bv : byte, exists bv' : byte,
      decP {| rlp.input := encP payload; rlp.kind := None; rlp.byteval := bv |}
        (Embedded prior)
      = ({| rlp.input := []; rlp.kind := None; rlp.byteval := bv' |}, payload, None)) ->
  RequestId (mkPacket66 R payload) = R /\
  Embedded (mkPacket66 R payload) = payload /\
  encode_Packet66 encP (mkPacket66 R payload)
    = rlp_list.encodeListHeader
        (Z.of_nat (length (rlp.encode_uint64 R ++ encP payload)))
      ++ rlp.encode_uint64 R ++ encP payload /\
  decode_Packet66 decP
    (rlp.NewStream (encode_Packet66 encP (mkPacket66 R payload) ++ rest)) prior
  = ({| rlp.input := rest; rlp.kind := None; rlp.byteval := x00 |},
     mkPacket66 R payload, None).
Proof.
  intros HR Hlen Hcodec.
  split; [reflexivity|]. split; [reflexivity|]. split; [reflexivity|].
  unfold decode_Packet66, encode_Packet66, rlp.NewStream.
  destruct (rlp_list_facts.Decode_uint64_encode_uint64 R (RequestId prior)
              (encP payload) x00 HR) as [bv Hid].
  destruct (Hcodec bv) as [bv' Hpay].
  apply (rlp_list_facts.decode_struct_encode_struct _ _ _ _ _ _ bv').
  - exact Hlen.
  - unfold Packet66_decode_fields, Packet66_fields, rlp.NewStream.
    cbn [RequestId Embedded]. rewrite Hid, Hpay. reflexivity.
Qed.

Lemma envelope_adds_leading_identifier_witness :
  RequestId (mkPacket66 1024 {| GetBlock_Hash := example_hash |}) = 1024 /\
  Embedded (mkPacket66 1024 {| GetBlock_Hash := example_hash |})
    = {| GetBlock_Hash := example_hash |} /\
  encode_Packet66 encode_GetBlockPacket (mkPacket66 1024 {| GetBlock_Hash := example_hash |})
    = rlp_list.encodeListHeader
        (Z.of_nat (length (rlp.encode_uint64 1024
                           ++ encode_GetBlockPacket {| GetBlock_Hash := example_hash |})))
      ++ rlp.encode_uint64 1024
      ++ encode_GetBlockPacket {| GetBlock_Hash := example_hash |} /\
  decode_Packet66 decode_GetBlockPacket
    (rlp.NewStream
       (encode_Packet66 encode_GetBlockPacket
          (mkPacket66 1024 {| GetBlock_Hash := example_hash |}) ++ [x2a]))
    (mkPacket66 7 {| GetBlock_Hash := zero_Hash |})
  = ({| rlp.input := [x2a]; rlp.kind := None; rlp.byteval := x00 |},
     mkPacket66 1024 {| GetBlock_Hash := example_hash |}, None).
Proof.
  apply (envelope_adds_leading_identifier GetBlockPacket
           encode_GetBlockPacket decode_GetBlockPacket 1024
           {| GetBlock_Hash := example_hash |}
           (mkPacket66 7 {| GetBlock_Hash := zero_Hash |}) [x2a]).
  - lia.
  - vm_compute. reflexivity.
  - intros bv. exists x00.
    rewrite <- (app_nil_r (encode_GetBlockPacket {| GetBlock_Hash := example_hash |})).
    apply decode_encode_GetBlockPacket; reflexivity.
Defined.

Example GetBlockPacket66_wire :
  encode_Packet66 encode_GetBlockPacket (mkPacket66 1024 {| GetBlock_Hash := example_hash |})
  = [xe5; x82; x04; x00; xe1; xa0] ++ example_hash.
Proof. reflexivity. Qed.
